(** * Verification of the Go source splitter (main.go)

    A shallow embedding of [main], [splitGoFile] and its helpers: the
    partitioning of the function declarations into groups, the import
    filter [analyzeRequiredImports], the suffix namer
    [generateUniqueFilenameSuffix], the directory snapshot
    [getExistingFiles] and [writeGoFile]; and, in module [Legacy], of the
    [splitGoFile] of the earlier variant in src/unnamed/part_000.

    Conventions.
    - Go strings are byte strings: [string].
    - [map[string]bool] values that are only ever set to [true] are finite
      sets of strings, [gset string]; a lookup of an absent key is [false].
    - Go's [error] is [option string]: [None] is [nil].
    - [int] values that are lengths, indices or counts are [nat].  Inside the
      loop of [splitGoFile] every such value is below [3 * len(functions)]
      (lemma [loop_ints_bounded]), so 64-bit wrap-around never occurs.
      The count [numFiles] is an integer of either sign in
      [splitGoFileInt], which [main] calls; [splitGoFile] is the same
      function at the counts that are not negative.
    - Functions of the Go standard library and of the operating system that
      the program calls but does not define are fields of [World]. *)

From Stdlib Require Import Ascii.
From stdpp Require Import base numbers list strings gmap sets fin_sets pretty.

Set Default Proof Using "Type".
#[local] Set Warnings "-clear-no-such-hyp".

(** ** The syntax tree (package go/ast) *)

(** A node of the tree, as far as the program looks at it: the callbacks
    passed to [ast.Inspect] distinguish [*ast.Ident] and
    [*ast.SelectorExpr]; every other kind of node is [OtherNode] with
    its children in the order [ast.Walk] visits them. *)
#[local] Unset Elimination Schemes.
Inductive Node : Type :=
  | Ident (Name : string)
  | SelectorExpr (X : Node) (Sel : string)
  | OtherNode (children : list Node).
#[local] Set Elimination Schemes.

Inductive Token : Type := IMPORT | TYPE | CONST | VAR.

Global Instance Token_eq_dec : EqDecision Token.
Proof. solve_decision. Defined.

(** [ast.ImportSpec]: [Name] is nil for an import without alias; [Path]
    is the literal as written, quotes included. *)
Record ImportSpec : Type := mkImportSpec {
  imp_Name : option string;
  imp_Path : string
}.

Inductive Spec : Type :=
  | SpecImport (imp : ImportSpec)
  | SpecOther (n : Node).

Record GenDecl : Type := mkGenDecl {
  Tok : Token;
  Specs : list Spec
}.

(** [ast.FuncDecl].  The parser always sets [Name]; [Recv] and [Body]
    may be nil. *)
Record FuncDecl : Type := mkFuncDecl {
  fn_Recv : option Node;
  fn_Name : string;
  fn_Type : Node;
  fn_Body : option Node
}.

Inductive Decl : Type :=
  | DeclGen (g : GenDecl)
  | DeclFunc (fn : FuncDecl)
  | DeclBad.

Record File : Type := mkFile {
  file_Name : string;
  file_Decls : list Decl
}.

(** The children [ast.Walk] visits below a declaration.  Doc comments
    are left out: no identifier node is below them. *)
Definition ImportSpec_node (imp : ImportSpec) : Node :=
  OtherNode (option_list (Ident <$> imp_Name imp) ++ [OtherNode []]).

Definition Spec_node (s : Spec) : Node :=
  match s with
  | SpecImport imp => ImportSpec_node imp
  | SpecOther n => n
  end.

Definition GenDecl_node (g : GenDecl) : Node :=
  OtherNode (Spec_node <$> Specs g).

Definition FuncDecl_node (fn : FuncDecl) : Node :=
  OtherNode (option_list (fn_Recv fn) ++ [Ident (fn_Name fn); fn_Type fn]
             ++ option_list (fn_Body fn)).

(** [ast.Inspect n f] for a callback that always returns [true]: depth
    first, the node before its children.  The callback's effect on the
    captured map is the state transformer [f]. *)
Fixpoint Inspect {A : Type} (f : Node → A → A) (n : Node) (acc : A) : A :=
  match n with
  | Ident _ => f n acc
  | SelectorExpr X Sel => f (Ident Sel) (Inspect f X (f n acc))
  | OtherNode cs => fold_left (λ a c, Inspect f c a) cs (f n acc)
  end.

(** ** Strings (package strings, fmt) *)

(** [strings.Contains s substr]. *)
Fixpoint Contains (s substr : string) : bool :=
  String.prefix substr s ||
  match s with
  | EmptyString => false
  | String _ s' => Contains s' substr
  end.

(** [strings.HasSuffix s suffix]. *)
Definition HasSuffix (s suffix : string) : bool :=
  String.prefix (String.rev suffix) (String.rev s).

(** [strings.TrimSuffix s suffix]. *)
Definition TrimSuffix (s suffix : string) : string :=
  if HasSuffix s suffix
  then String.substring 0 (String.length s - String.length suffix) s
  else s.

Definition in_cutset (cutset : string) (c : ascii) : bool :=
  bool_decide (c ∈ String.list_ascii_of_string cutset).

Fixpoint TrimLeft (s cutset : string) : string :=
  match s with
  | String c s' => if in_cutset cutset c then TrimLeft s' cutset else s
  | EmptyString => EmptyString
  end.

(** [strings.Trim s cutset], for a cutset of ASCII characters. *)
Definition Trim (s cutset : string) : string :=
  String.rev (TrimLeft (String.rev (TrimLeft s cutset)) cutset).

(** [strings.Split s sep] for a separator of one byte: [go] carries the
    current segment reversed. *)
Fixpoint Split_go (sep : ascii) (cur : string) (s : string) : list string :=
  match s with
  | EmptyString => [String.rev cur]
  | String c s' =>
      if bool_decide (c = sep) then String.rev cur :: Split_go sep "" s'
      else Split_go sep (String c cur) s'
  end.

Definition Split (s : string) (sep : ascii) : list string := Split_go sep "" s.

(** [fmt.Sprintf("%s_%s.go", baseFileName, suffix)]. *)
Definition Sprintf_go (baseFileName suffix : string) : string :=
  baseFileName +:+ "_" +:+ suffix +:+ ".go".

(** [fmt.Sprintf("%s%d", baseSuffix, i)]. *)
Definition Sprintf_sd (baseSuffix : string) (i : nat) : string :=
  baseSuffix +:+ pretty i.

(** [string(b)] for a byte [b]: the UTF-8 encoding of the code point
    [b], one byte below 128 and two bytes from 128 on. *)
Definition string_of_byte (b : ascii) : string :=
  let n := N_of_ascii b in
  if (n <? 128)%N then String b ""
  else String (ascii_of_N (192 + n / 64)) (String (ascii_of_N (128 + n mod 64)) "").

(** ** The outside world *)

(** [os.DirEntry], as far as [getExistingFiles] reads it. *)
Record DirEntry : Type := mkDirEntry {
  entry_Name : string;
  entry_IsDir : bool
}.

(** The library and system calls of the program.  A failing call carries
    the text of its Go error.
    - [ToLower]: [strings.ToLower] (Unicode aware, hence not defined here);
    - [filepath_Base], [filepath_Dir], [filepath_Join]: package path/filepath;
    - [ParseFile]: [parser.ParseFile] on the file at a path;
    - [ReadDir]: [os.ReadDir];
    - [os_Create]: [os.Create], [None] when the file was created or truncated;
    - [format_Node]: [format.Node], the bytes it wrote and its error;
    - [Atoi]: [strconv.Atoi]. *)
Record World : Type := mkWorld {
  ToLower : string → string;
  filepath_Base : string → string;
  filepath_Dir : string → string;
  filepath_Join : string → string → string;
  ParseFile : string → File + string;
  ReadDir : string → list DirEntry + string;
  os_Create : string → option string;
  format_Node : File → string * option string;
  Atoi : string → Z + string
}.

(** The files of the file system and their contents. *)
Abbreviation Disk := (gmap string string).

(** How a Go function call ends: it returns its [error], or it panics. *)
Inductive Outcome : Type :=
  | Return (err : option string)
  | Panic (msg : string).

(** ** The word lists *)

(** [keywords] of [generateFilenameSuffix], in source order. *)
Definition keywords : list string :=
  ["parse"; "generate"; "create"; "process"; "handle"; "convert"; "build";
   "render"; "execute"; "validate"; "format"; "transform"; "encode";
   "decode"; "load"; "save"; "write"; "read"; "get"; "set"; "add"; "remove";
   "update"; "delete"; "find"; "search"; "filter"; "sort"; "merge"; "split";
   "join"; "copy"; "move"; "clean"; "init"; "start"; "stop"; "run"; "exec";
   "call"; "invoke"; "apply"; "map"; "reduce"; "collect"; "stream"; "buffer";
   "cache"; "store"; "fetch"; "send"; "receive"; "upload"; "download";
   "compress"; "extract"; "zip"; "unzip"; "backup"; "restore"; "sync";
   "async"; "wait"; "notify"; "signal"; "lock"; "unlock"; "open"; "close";
   "connect"; "disconnect"; "bind"; "unbind"; "listen"; "serve"; "request";
   "response"; "query"; "insert"; "select"; "count"; "sum"; "max"; "min";
   "avg"; "group"; "order"; "limit"; "offset"; "page"; "chunk"; "batch";
   "parallel"; "serial"; "concurrent"; "thread"; "worker"; "job"; "task";
   "queue"; "stack"; "list"; "array"; "map"; "set"; "tree"; "graph"; "node";
   "edge"; "path"; "route"; "url"; "uri"; "link"; "ref"; "ptr"; "addr";
   "size"; "len"; "cap"; "empty"; "full"; "contains"; "exists"; "valid";
   "invalid"; "ok"; "error"; "warn"; "info"; "debug"; "trace"; "log";
   "print"; "show"; "display"; "render"; "draw"; "paint"; "color"; "style";
   "theme"; "skin"; "layout"; "align"; "position"; "size"; "resize"; "scale";
   "zoom"; "pan"; "scroll"; "drag"; "drop"; "click"; "hover"; "focus";
   "blur"; "select"; "deselect"; "toggle"; "switch"; "enable"; "disable";
   "show"; "hide"; "visible"; "invisible"; "active"; "inactive"; "on"; "off";
   "true"; "false"; "yes"; "no"; "ok"; "cancel"; "submit"; "reset"; "clear";
   "clean"; "flush"; "purge"; "refresh"; "reload"; "restart"; "resume";
   "pause"; "play"; "record"; "replay"; "undo"; "redo"; "cut"; "copy";
   "paste"; "clone"; "duplicate"; "mirror"; "reflect"; "invert"; "reverse";
   "flip"; "rotate"; "shift"; "move"; "slide"; "fade"; "animate";
   "transition"; "effect"; "filter"; "mask"; "overlay"; "background";
   "foreground"; "layer"; "depth"; "level"; "priority"; "weight"; "rank";
   "score"; "rate"; "ratio"; "percent"; "fraction"; "decimal"; "integer";
   "float"; "double"; "string"; "char"; "byte"; "bit"; "word"; "line";
   "paragraph"; "section"; "chapter"; "page"; "document"; "file"; "folder";
   "directory"; "path"; "name"; "title"; "label"; "tag"; "attr"; "prop";
   "field"; "column"; "row"; "cell"; "table"; "grid"; "matrix"; "vector";
   "point"; "coord"; "pos"; "loc"; "place"; "spot"; "area"; "region"; "zone";
   "space"; "room"; "box"; "container"; "wrapper"; "holder"; "frame";
   "border"; "edge"; "corner"; "side"; "top"; "bottom"; "left"; "right";
   "center"; "middle"; "inner"; "outer"; "inside"; "outside"; "before";
   "after"; "first"; "last"; "next"; "prev"; "current"; "new"; "old"; "temp";
   "tmp"; "backup"; "orig"; "copy"; "clone"; "draft"; "final"; "test";
   "demo"; "sample"; "example"; "template"; "pattern"; "model"; "schema";
   "struct"; "class"; "type"; "kind"; "sort"; "category"; "group"; "team";
   "user"; "admin"; "guest"; "public"; "private"; "secure"; "safe"; "unsafe";
   "danger"; "risk"; "warn"; "alert"; "notice"; "message"; "text"; "content";
   "data"; "info"; "meta"; "config"; "setting"; "option"; "param"; "arg";
   "value"; "result"; "output"; "input"; "source"; "target"; "dest"; "from";
   "to"; "via"; "through"; "by"; "with"; "without"; "using"; "based"; "upon";
   "over"; "under"; "above"; "below"; "between"; "among"; "within";
   "outside"; "beyond"; "across"; "along"; "around"; "through"; "during";
   "while"; "until"; "since"; "before"; "after"; "when"; "where"; "what";
   "who"; "why"; "how"; "which"; "whose"; "whom"; "that"; "this"; "these";
   "those"; "such"; "same"; "other"; "another"; "each"; "every"; "all";
   "any"; "some"; "none"; "nothing"; "something"; "anything"; "everything";
   "somewhere"; "anywhere"; "everywhere"; "nowhere"; "someone"; "anyone";
   "everyone"; "no one"].

(** [alternatives] of [generateUniqueFilenameSuffix], in source order. *)
Definition alternatives : list string :=
  ["core"; "main"; "base"; "util"; "helper"; "common"; "shared"; "extra";
   "misc"; "other"; "new"; "alt"; "impl"; "logic"; "work"; "task"; "ops";
   "flow"; "step"; "part"; "unit"; "chunk"; "block"; "piece"; "item"; "elem";
   "node"; "link"; "path"; "route"; "view"; "ctrl"; "model"; "data"; "info";
   "meta"; "config"; "setup"; "init"; "boot"; "start"; "launch"; "run";
   "exec"; "proc"; "action"; "event"; "state"; "change"; "update"; "modify";
   "edit"; "fix"; "patch"; "clean"; "clear"; "reset"; "fresh"; "quick";
   "fast"; "slow"; "temp"; "local"; "remote"; "public"; "private"; "secure";
   "safe"; "simple"; "basic"; "advanced"; "custom"; "special"; "unique";
   "single"; "multi"; "batch"; "group"; "list"; "set"; "map"; "tree";
   "graph"; "queue"; "stack"; "buffer"; "cache"; "store"; "load"; "save";
   "fetch"; "send"; "recv"; "sync"; "async"; "wait"; "done"; "ready";
   "active"; "idle"; "busy"; "free"; "open"; "close"; "lock"; "unlock";
   "check"; "test"; "verify"; "valid"; "error"; "warn"; "debug"; "trace";
   "log"; "print"; "show"; "hide"; "render"; "draw"; "build"; "make";
   "craft"; "forge"; "shape"; "form"; "mold"; "cast"; "press"; "push";
   "pull"; "move"; "shift"; "slide"; "jump"; "skip"; "next"; "prev"; "first";
   "last"; "top"; "bottom"; "left"; "right"; "center"; "middle"; "inner";
   "outer"; "upper"; "lower"; "high"; "low"; "big"; "small"; "large"; "tiny";
   "huge"; "mini"; "full"; "empty"; "blank"; "void"; "null"; "zero"; "one";
   "two"; "three"; "many"; "few"; "some"; "all"; "none"; "auto"; "manual";
   "smart"; "dumb"; "cool"; "warm"; "hot"; "cold"; "wet"; "dry"; "soft";
   "hard"; "light"; "dark"; "bright"; "dim"; "loud"; "quiet"; "fast"; "slow";
   "old"; "young"; "rich"; "poor"; "true"; "false"; "good"; "bad"; "nice";
   "ugly"; "clean"; "dirty"; "pure"; "mixed"; "solid"; "liquid"; "gas";
   "fire"; "water"; "earth"; "air"; "wood"; "metal"; "stone"; "glass";
   "paper"; "cloth"; "rope"; "wire"; "pipe"; "tube"; "box"; "bag"; "cup";
   "bowl"; "plate"; "knife"; "fork"; "spoon"; "tool"; "gear"; "part"; "chip";
   "disk"; "tape"; "card"; "key"; "lock"; "door"; "window"; "wall"; "floor";
   "roof"; "room"; "house"; "city"; "town"; "road"; "street"; "bridge";
   "river"; "lake"; "sea"; "ocean"; "mountain"; "hill"; "tree"; "flower";
   "grass"; "leaf"; "seed"; "fruit"; "root"; "branch"; "trunk"; "bark";
   "wood"; "forest"; "field"; "farm"; "garden"; "park"; "zoo"; "museum";
   "school"; "library"; "store"; "shop"; "market"; "bank"; "office";
   "factory"; "lab"; "studio"; "theater"; "cinema"; "restaurant"; "cafe";
   "hotel"; "hospital"; "church"; "temple"; "castle"; "tower"; "bridge";
   "tunnel"; "cave"; "valley"; "desert"; "island"; "beach"; "shore"; "coast";
   "port"; "harbor"; "dock"; "ship"; "boat"; "plane"; "train"; "car"; "bike";
   "truck"; "bus"; "taxi"; "rocket"; "satellite"; "star"; "moon"; "sun";
   "planet"; "comet"; "meteor"; "galaxy"; "universe"; "space"; "time";
   "year"; "month"; "week"; "day"; "hour"; "minute"; "second"; "moment";
   "instant"; "flash"; "spark"; "flame"; "smoke"; "cloud"; "rain"; "snow";
   "ice"; "frost"; "dew"; "mist"; "fog"; "wind"; "storm"; "thunder";
   "lightning"; "rainbow"; "shadow"; "light"; "beam"; "ray"; "wave"; "sound";
   "music"; "song"; "voice"; "word"; "letter"; "number"; "symbol"; "sign";
   "mark"; "dot"; "line"; "curve"; "circle"; "square"; "triangle"; "diamond";
   "heart"; "star"; "cross"; "arrow"; "spiral"; "wave"; "grid"; "mesh";
   "net"; "web"; "thread"; "string"; "rope"; "chain"; "link"; "bond"; "tie";
   "knot"; "loop"; "ring"; "band"; "strip"; "belt"; "strap"; "handle";
   "grip"; "hold"; "grasp"; "touch"; "feel"; "sense"; "see"; "look"; "watch";
   "view"; "scan"; "search"; "find"; "seek"; "hunt"; "track"; "follow";
   "lead"; "guide"; "direct"; "point"; "aim"; "target"; "goal"; "end";
   "finish"; "complete"; "done"; "over"; "final"; "last"; "stop"; "halt";
   "pause"; "break"; "rest"; "sleep"; "wake"; "rise"; "fall"; "drop"; "lift";
   "raise"; "lower"; "turn"; "spin"; "rotate"; "twist"; "bend"; "fold";
   "open"; "close"; "shut"; "seal"; "break"; "crack"; "split"; "join";
   "merge"; "unite"; "divide"; "separate"; "cut"; "slice"; "chop"; "tear";
   "rip"; "grab"; "catch"; "throw"; "toss"; "cast"; "shoot"; "fire"; "blast";
   "explode"; "crash"; "smash"; "hit"; "strike"; "punch"; "kick"; "stomp";
   "step"; "walk"; "run"; "jog"; "sprint"; "rush"; "hurry"; "slow"; "crawl";
   "climb"; "jump"; "leap"; "hop"; "skip"; "dance"; "swim"; "dive"; "float";
   "fly"; "soar"; "glide"; "drift"; "flow"; "stream"; "rush"; "pour"; "drip";
   "leak"; "spill"; "splash"; "spray"; "mist"; "dust"; "powder"; "grain";
   "sand"; "dirt"; "mud"; "clay"; "rock"; "stone"; "pebble"; "boulder";
   "crystal"; "gem"; "gold"; "silver"; "copper"; "iron"; "steel"; "brass";
   "bronze"; "tin"; "lead"; "zinc"; "chrome"; "nickel"; "cobalt"; "carbon";
   "silicon"; "oxygen"; "hydrogen"; "nitrogen"; "helium"; "neon"; "argon";
   "mercury"; "venus"; "mars"; "jupiter"; "saturn"; "uranus"; "neptune";
   "pluto"].

(** ** The program *)

(** [functions[start:end]], for [start <= end <= len(functions)]. *)
Definition slice {A : Type} (l : list A) (start end_ : nat) : list A :=
  take (end_ - start) (drop start l).

Definition newline : string := String "010"%char "".
Definition quote : string := String "034"%char "".

(** The arguments of one call of [writeGoFile] inside the loop of
    [splitGoFile], that is the local variables of that iteration. *)
Record Iter : Type := mkIter {
  it_start : nat;
  it_end : nat;
  it_functions : list FuncDecl;
  it_typesForFile : list GenDecl;
  it_suffix : string;
  it_outputFile : string;
  it_requiredImports : list ImportSpec
}.

(** The state a run of [splitGoFile] threads through its loop:
    the map [usedNames], the file system, the lines printed on standard
    output, and (for the statements below) the iterations that reached
    [writeGoFile], oldest first. *)
Record Run : Type := mkRun {
  usedNames : gset string;
  disk : Disk;
  stdout : list string;
  iters : list Iter
}.

Definition extractImports (node : File) : list ImportSpec :=
  flat_map (λ decl,
    match decl with
    | DeclGen genDecl =>
        if decide (Tok genDecl = IMPORT)
        then omap (λ spec, match spec with
                           | SpecImport importSpec => Some importSpec
                           | SpecOther _ => None
                           end) (Specs genDecl)
        else []
    | _ => []
    end) (file_Decls node).

Definition extractTypeDecls (node : File) : list GenDecl :=
  omap (λ decl,
    match decl with
    | DeclGen genDecl => if decide (Tok genDecl = TYPE) then Some genDecl else None
    | _ => None
    end) (file_Decls node).

Definition extractFunctions (node : File) : list FuncDecl :=
  omap (λ decl,
    match decl with
    | DeclFunc funcDecl => Some funcDecl
    | _ => None
    end) (file_Decls node).

(** The [ast.File] that [writeGoFile] assembles before it opens the
    output file. *)
Definition assembleFile (packageName : string) (imports : list ImportSpec)
    (typeDecls : list GenDecl) (functions : list FuncDecl) : File :=
  {| file_Name := packageName;
     file_Decls :=
       (if bool_decide (0 < length imports)
        then [DeclGen {| Tok := IMPORT; Specs := SpecImport <$> imports |}]
        else [])
       ++ (DeclGen <$> typeDecls) ++ (DeclFunc <$> functions) |}.

(** The callback that both [ast.Inspect] calls of [analyzeRequiredImports]
    pass: its effect on [usedIdentifiers]. *)
Definition recordIdent (n : Node) (usedIdentifiers : gset string) : gset string :=
  match n with
  | SelectorExpr (Ident Name) _ => {[Name]} ∪ usedIdentifiers
  | Ident Name => {[Name]} ∪ usedIdentifiers
  | _ => usedIdentifiers
  end.

(** The name an import is bound to: lines 275 to 282 of main.go. *)
Definition importName (imp : ImportSpec) : string :=
  match imp_Name imp with
  | Some Name => Name
  | None =>
      let importPath := Trim (imp_Path imp) quote in
      let parts := Split importPath "/"%char in
      List.last parts ""
  end.

Definition usedIdentifiersOf (functions : list FuncDecl) (typeDecls : list GenDecl)
    : gset string :=
  let usedIdentifiers :=
    fold_left (λ used fn, Inspect recordIdent (FuncDecl_node fn) used) functions ∅ in
  fold_left (λ used typeDecl, Inspect recordIdent (GenDecl_node typeDecl) used)
    typeDecls usedIdentifiers.

Definition analyzeRequiredImports (functions : list FuncDecl)
    (typeDecls : list GenDecl) (allImports : list ImportSpec) : list ImportSpec :=
  let usedIdentifiers := usedIdentifiersOf functions typeDecls in
  filter (λ imp, importName imp ∈ usedIdentifiers) allImports.

(** The test [!existingFiles[filename] && !usedNames[suffix]] that
    [generateUniqueFilenameSuffix] applies to every candidate. *)
Definition isFree (baseFileName : string) (existingFiles usedNames : gset string)
    (suffix : string) : bool :=
  bool_decide (Sprintf_go baseFileName suffix ∉ existingFiles)
  && bool_decide (suffix ∉ usedNames).

Section Program.
Context (w : World).

Definition generateFilenameSuffix (functions : list FuncDecl) (hasTypes : bool)
    : string :=
  if hasTypes then "types"
  else if bool_decide (length functions = 0) then "empty"
  else
    (* fn.Name is never nil in a parsed file *)
    let funcNames := (λ fn, ToLower w (fn_Name fn)) <$> functions in
    if bool_decide (length funcNames = 0) then "funcs"
    else
      match find (λ keyword, existsb (λ name, Contains name keyword) funcNames)
                 keywords with
      | Some keyword => keyword
      | None =>
          match funcNames with
          | String c _ :: _ => ToLower w (string_of_byte c)
          | _ => "funcs"
          end
      end.

Definition generateUniqueFilenameSuffix (functions : list FuncDecl)
    (hasTypes : bool) (baseFileName : string)
    (existingFiles usedNames : gset string) : string :=
  let baseSuffix := generateFilenameSuffix functions hasTypes in
  if isFree baseFileName existingFiles usedNames baseSuffix then baseSuffix
  else
    match find (isFree baseFileName existingFiles usedNames) alternatives with
    | Some testSuffix => testSuffix
    | None =>
        match find (isFree baseFileName existingFiles usedNames)
                   (Sprintf_sd baseSuffix <$> seq 1 999) with
        | Some testSuffix => testSuffix
        | None => Sprintf_sd baseSuffix 999
        end
    end.

Definition getExistingFiles (dir : string) : gset string * option string :=
  match ReadDir w dir with
  | inr err => (∅, Some err)
  | inl entries =>
      (fold_left (λ files entry,
         if negb (entry_IsDir entry) && HasSuffix (entry_Name entry) ".go"
         then {[entry_Name entry]} ∪ files else files) entries ∅, None)
  end.

Definition writeGoFile (d : Disk) (filename packageName : string)
    (imports : list ImportSpec) (typeDecls : list GenDecl)
    (functions : list FuncDecl) : Disk * option string :=
  let file := assembleFile packageName imports typeDecls functions in
  match os_Create w filename with
  | Some err => (d, Some err)
  | None =>
      let '(text, err) := format_Node w file in
      (<[filename := text]> d, err)
  end.

Section Loop.
Context (packageName : string) (imports : list ImportSpec)
        (typeDecls : list GenDecl) (functions : list FuncDecl)
        (baseFileName outputDir : string) (existingFiles : gset string)
        (funcsPerFile : nat).

(** The loop [for i := 0; i < numFiles; i++] of [splitGoFile], entered
    at [i] with [n = numFiles - i] iterations to go. *)
Fixpoint splitLoop (n i : nat) (st : Run) : Run * option string :=
  match n with
  | 0 => (st, None)
  | S n' =>
      let start := i * funcsPerFile in
      let end_ := start + funcsPerFile in
      let end_ := if bool_decide (length functions < end_)
                  then length functions else end_ in
      if bool_decide (length functions ≤ start) then (st, None)
      else
        let typesForFile := if bool_decide (i = 0) then typeDecls else [] in
        let suffix :=
          generateUniqueFilenameSuffix (slice functions start end_)
            (bool_decide (i = 0)) baseFileName existingFiles (usedNames st) in
        let usedNames' := {[suffix]} ∪ usedNames st in
        let outputFile :=
          filepath_Join w outputDir (Sprintf_go baseFileName suffix) in
        let requiredImports :=
          analyzeRequiredImports (slice functions start end_) typesForFile imports in
        let it := {| it_start := start; it_end := end_;
                     it_functions := slice functions start end_;
                     it_typesForFile := typesForFile;
                     it_suffix := suffix;
                     it_outputFile := outputFile;
                     it_requiredImports := requiredImports |} in
        match writeGoFile (disk st) outputFile packageName requiredImports
                typesForFile (slice functions start end_) with
        | (d', Some err) =>
            ({| usedNames := usedNames'; disk := d'; stdout := stdout st;
                iters := iters st ++ [it] |},
             Some ("failed to write " +:+ outputFile +:+ ": " +:+ err))
        | (d', None) =>
            splitLoop n' (S i)
              {| usedNames := usedNames'; disk := d';
                 stdout := stdout st ++ ["Created: " +:+ outputFile +:+ newline];
                 iters := iters st ++ [it] |}
        end
  end.
End Loop.

(** The value of [funcsPerFile]: lines 58 to 61. *)
Definition funcsPerFileOf (len numFiles : nat) : nat :=
  let funcsPerFile := len / numFiles in
  if bool_decide (len mod numFiles ≠ 0) then funcsPerFile + 1 else funcsPerFile.

(** A run begins with the files [d] on disk, nothing printed, and no
    iteration done. *)
Definition initRun (d : Disk) : Run :=
  {| usedNames := ∅; disk := d; stdout := []; iters := [] |}.

(** [splitGoFile] on the disk [d], at a count that is not negative.
    [main] calls it with a positive count only; with 0 the division of
    line 58 panics, after the directory was read.  The counts below 0 of
    Go's [int] are in [splitGoFileInt]. *)
Definition splitGoFile (d : Disk) (inputFile : string) (numFiles : nat)
    : Run * Outcome :=
  match ParseFile w inputFile with
  | inr err => (initRun d, Return (Some ("failed to parse file: " +:+ err)))
  | inl node =>
      let packageName := file_Name node in
      let imports := extractImports node in
      let typeDecls := extractTypeDecls node in
      let functions := extractFunctions node in
      if bool_decide (length functions = 0)
      then (initRun d, Return (Some "no functions found in file"))
      else
        let baseFileName := TrimSuffix (filepath_Base w inputFile) ".go" in
        let outputDir := filepath_Dir w inputFile in
        match getExistingFiles outputDir with
        | (_, Some err) =>
            (initRun d, Return (Some ("failed to read directory: " +:+ err)))
        | (existingFiles, None) =>
            if bool_decide (numFiles = 0)
            then (initRun d, Panic "runtime error: integer divide by zero")
            else
              let funcsPerFile := funcsPerFileOf (length functions) numFiles in
              let '(st, err) :=
                splitLoop packageName imports typeDecls functions baseFileName
                  outputDir existingFiles funcsPerFile numFiles 0 (initRun d) in
              (st, Return err)
        end
  end.

(** [splitGoFile] at any count of Go's [int].  A negative count passes
    the division of line 58, which truncates toward zero, and the loop
    of line 65 is not entered, as [i < numFiles] fails at once: nil is
    returned.  At a count that is not negative this is [splitGoFile]
    (lemma [splitGoFileInt_nonneg]). *)
Definition splitGoFileInt (d : Disk) (inputFile : string) (numFiles : Z)
    : Run * Outcome :=
  match ParseFile w inputFile with
  | inr err => (initRun d, Return (Some ("failed to parse file: " +:+ err)))
  | inl node =>
      let packageName := file_Name node in
      let imports := extractImports node in
      let typeDecls := extractTypeDecls node in
      let functions := extractFunctions node in
      if bool_decide (length functions = 0)
      then (initRun d, Return (Some "no functions found in file"))
      else
        let baseFileName := TrimSuffix (filepath_Base w inputFile) ".go" in
        let outputDir := filepath_Dir w inputFile in
        match getExistingFiles outputDir with
        | (_, Some err) =>
            (initRun d, Return (Some ("failed to read directory: " +:+ err)))
        | (existingFiles, None) =>
            if bool_decide (numFiles = 0)%Z
            then (initRun d, Panic "runtime error: integer divide by zero")
            else
              let funcsPerFile := Z.quot (Z.of_nat (length functions)) numFiles in
              let funcsPerFile :=
                if bool_decide (Z.rem (Z.of_nat (length functions)) numFiles ≠ 0)%Z
                then (funcsPerFile + 1)%Z else funcsPerFile in
              let '(st, err) :=
                splitLoop packageName imports typeDecls functions baseFileName
                  outputDir existingFiles (Z.to_nat funcsPerFile)
                  (Z.to_nat numFiles) 0 (initRun d) in
              (st, Return err)
        end
  end.

(** [main] on the arguments [Args] (the program name first): the run
    it makes, the text it writes on standard error, and its exit
    status.  A panic ends the process with status 2.  With no argument
    at all, not even the program name, the usage line of line 17 reads
    [os.Args[0]] out of range and panics. *)
Definition main (d : Disk) (Args : list string) : Run * string * nat :=
  match Args with
  | [prog; inputFile; arg2] =>
      match Atoi w arg2 with
      | inr _ =>
          (initRun d, "Error: num_files must be a positive integer" +:+ newline, 1)
      | inl numFiles =>
          if bool_decide (numFiles ≤ 0)%Z
          then (initRun d,
                "Error: num_files must be a positive integer" +:+ newline, 1)
          else
            match splitGoFileInt d inputFile numFiles with
            | (st, Return None) => (st, "", 0)
            | (st, Return (Some err)) => (st, "Error: " +:+ err +:+ newline, 1)
            | (st, Panic msg) => (st, "panic: " +:+ msg +:+ newline, 2)
            end
      end
  | [] =>
      (initRun d,
       "panic: runtime error: index out of range [0] with length 0" +:+ newline,
       2)
  | prog :: _ =>
      (initRun d,
       "Usage: " +:+ prog +:+ " <input.go> <num_files>" +:+ newline,
       1)
  end.
End Program.

(** ** Iterations of the loop

    Names for what one iteration of the loop of [splitGoFile] computes,
    used to state what the loop does. *)

Section Iterations.
Context (w : World).
Context (packageName : string) (imports : list ImportSpec)
        (typeDecls : list GenDecl) (functions : list FuncDecl)
        (baseFileName outputDir : string) (existingFiles : gset string)
        (funcsPerFile : nat).

(** The local variables of iteration [i] when it starts with the used
    suffixes [used]; [splitLoop_S] shows that this is the loop body. *)
Definition iterAt (i : nat) (used : gset string) : Iter :=
  let start := i * funcsPerFile in
  let end_ := if bool_decide (length functions < start + funcsPerFile)
              then length functions else start + funcsPerFile in
  let typesForFile := if bool_decide (i = 0) then typeDecls else [] in
  let suffix :=
    generateUniqueFilenameSuffix w (slice functions start end_)
      (bool_decide (i = 0)) baseFileName existingFiles used in
  {| it_start := start; it_end := end_;
     it_functions := slice functions start end_;
     it_typesForFile := typesForFile;
     it_suffix := suffix;
     it_outputFile := filepath_Join w outputDir (Sprintf_go baseFileName suffix);
     it_requiredImports :=
       analyzeRequiredImports (slice functions start end_) typesForFile imports |}.

(** [m] consecutive iterations from [i] on, each suffix recorded
    before the next iteration. *)
Fixpoint plan (m i : nat) (used : gset string) : list Iter :=
  match m with
  | 0 => []
  | S m' =>
      let it := iterAt i used in
      it :: plan m' (S i) ({[it_suffix it]} ∪ used)
  end.

(** The file an iteration hands to the printer, the error of its
    [writeGoFile], the disk after it, and the line it prints. *)
Definition it_file (it : Iter) : File :=
  assembleFile packageName (it_requiredImports it) (it_typesForFile it)
    (it_functions it).

Definition writeErr (it : Iter) : option string :=
  match os_Create w (it_outputFile it) with
  | Some err => Some err
  | None => (format_Node w (it_file it)).2
  end.

Definition writeDisk (d : Disk) (it : Iter) : Disk :=
  match os_Create w (it_outputFile it) with
  | Some _ => d
  | None => <[it_outputFile it := (format_Node w (it_file it)).1]> d
  end.

Definition created (it : Iter) : string :=
  "Created: " +:+ it_outputFile it +:+ newline.
End Iterations.

(** The locals of [splitGoFile] that do not depend on the loop. *)
Definition baseFileNameOf (w : World) (inputFile : string) : string :=
  TrimSuffix (filepath_Base w inputFile) ".go".

Definition existingFilesOf (w : World) (inputFile : string) : gset string :=
  (getExistingFiles w (filepath_Dir w inputFile)).1.

(** The first [m] iterations of the run on [node]. *)
Definition planOf (w : World) (node : File) (inputFile : string) (numFiles m : nat)
    : list Iter :=
  plan w (extractImports node) (extractTypeDecls node) (extractFunctions node)
    (baseFileNameOf w inputFile) (filepath_Dir w inputFile)
    (existingFilesOf w inputFile)
    (funcsPerFileOf (length (extractFunctions node)) numFiles) m 0 ∅.

(** ** Notions used in the statements *)

(** The name of a node that is an identifier. *)
Definition receiver (X : Node) : gset string :=
  match X with
  | Ident Name => {[Name]}
  | _ => ∅
  end.

(** The identifiers of a tree, stated without a traversal: the name of
    every identifier node, and the receiver of every selector expression
    whose receiver is an identifier. *)
Fixpoint identifiers (n : Node) : gset string :=
  match n with
  | Ident Name => {[Name]}
  | SelectorExpr X Sel => receiver X ∪ identifiers X ∪ {[Sel]}
  | OtherNode cs => ⋃ (identifiers <$> cs)
  end.

(** The identifiers of a group: those of its function declarations and
    of the type declarations that go with it. *)
Definition groupIdentifiers (functions : list FuncDecl) (typeDecls : list GenDecl)
    : gset string :=
  ⋃ (identifiers ∘ FuncDecl_node <$> functions)
  ∪ ⋃ (identifiers ∘ GenDecl_node <$> typeDecls).

(** The least [c] with [a <= b * c], for [b > 0]. *)
Definition ceil_div (a b : nat) : nat := (a + b - 1) / b.

(** All candidates of [generateUniqueFilenameSuffix] are taken: the base
    suffix, every alternative, and the base suffix with 1 to 999. *)
Definition exhausted (baseFileName : string) (existingFiles usedNames : gset string)
    (baseSuffix : string) : bool :=
  negb (isFree baseFileName existingFiles usedNames baseSuffix)
  && forallb (λ s, negb (isFree baseFileName existingFiles usedNames s)) alternatives
  && forallb (λ s, negb (isFree baseFileName existingFiles usedNames s))
       (Sprintf_sd baseSuffix <$> seq 1 999).

(** ** A sample world

    Used to run the program on concrete inputs: ASCII lower-casing (which
    is what [strings.ToLower] does on ASCII names), slash-separated paths,
    one parsable input file, a directory listing, and writes that fail on
    the paths in [bad]. *)

Definition lower_ascii (c : ascii) : ascii :=
  let n := N_of_ascii c in
  if (65 <=? n)%N && (n <=? 90)%N then ascii_of_N (n + 32) else c.

Fixpoint ToLower_ascii (s : string) : string :=
  match s with
  | EmptyString => EmptyString
  | String c s' => String (lower_ascii c) (ToLower_ascii s')
  end.

Definition sampleWorld (input : File) (entries : list DirEntry)
    (bad : list string) : World :=
  {| ToLower := ToLower_ascii;
     filepath_Base := λ p, List.last (Split p "/"%char) "";
     filepath_Dir := λ _, ".";
     filepath_Join := λ dir name, dir +:+ "/" +:+ name;
     ParseFile := λ _, inl input;
     ReadDir := λ _, inl entries;
     os_Create := λ p, if bool_decide (p ∈ bad) then Some "permission denied" else None;
     format_Node := λ f, (file_Name f, None);
     Atoi := λ _, inr "unused" |}.

Definition sampleFunc (name : string) (body : list Node) : FuncDecl :=
  {| fn_Recv := None; fn_Name := name; fn_Type := OtherNode [];
     fn_Body := Some (OtherNode body) |}.

Definition sampleFile (names : list string) : File :=
  {| file_Name := "main";
     file_Decls := (λ name, DeclFunc (sampleFunc name [])) <$> names |}.

(** Seven functions, no imports, no types, an empty directory. *)
Definition file7 : File :=
  sampleFile ["ParseA"; "Quux"; "Zed"; "LoadIt"; "Xyz"; "Quuz"; "Vvv"].

Definition world7 : World := sampleWorld file7 [] [].

Definition file5 : File := sampleFile ["Aa"; "Bb"; "Cc"; "Dd"; "Ee"].
Definition world5 : World := sampleWorld file5 [] [].

(** A file with a type declaration, an import that the first function
    uses through a selector, an import that nothing uses, and two
    functions. *)
Definition fmtImport : ImportSpec :=
  {| imp_Name := None; imp_Path := quote +:+ "fmt" +:+ quote |}.
Definition astImport : ImportSpec :=
  {| imp_Name := None; imp_Path := quote +:+ "go/ast" +:+ quote |}.
Definition pointType : GenDecl :=
  {| Tok := TYPE; Specs := [SpecOther (OtherNode [Ident "Point"; Ident "int"])] |}.

Definition fileT : File :=
  {| file_Name := "main";
     file_Decls :=
       [DeclGen {| Tok := IMPORT; Specs := [SpecImport fmtImport; SpecImport astImport] |};
        DeclGen pointType;
        DeclFunc (sampleFunc "Quux" [SelectorExpr (Ident "fmt") "Println"]);
        DeclFunc (sampleFunc "Zed" [Ident "x"])] |}.

Definition worldT : World := sampleWorld fileT [] [].

(** Only type declarations: nothing to split. *)
Definition fileOnlyTypes : File :=
  {| file_Name := "main"; file_Decls := [DeclGen pointType] |}.

(** The first iteration of the run on [fileT] with two files. *)
Definition iterT0 : Iter :=
  iterAt worldT (extractImports fileT) (extractTypeDecls fileT)
    (extractFunctions fileT) "x" "." ∅ 1 0 ∅.

(** The run on [file7] in a world where the second output file cannot
    be created. *)
Definition world7bad : World := sampleWorld file7 [] ["./x_load.go"].

Definition iter7bad : Iter :=
  iterAt world7bad (extractImports file7) (extractTypeDecls file7)
    (extractFunctions file7) "x" "." ∅ 3 1 {["types"]}.

(** A directory that already holds [x_types.go], [x_<alt>.go] for every
    alternative and [x_types1.go] to [x_types999.go]. *)
Definition takenSuffixes : list string :=
  "types" :: alternatives ++ (Sprintf_sd "types" <$> seq 1 999).

Definition fullEntries : list DirEntry :=
  (λ s, {| entry_Name := Sprintf_go "x" s; entry_IsDir := false |})
  <$> takenSuffixes.

Definition file1 : File := sampleFile ["Quux"].
Definition worldFull : World := sampleWorld file1 fullEntries [].

(** The directory of [worldT] with [x_types.go] already there. *)
Definition worldTypesTaken : World :=
  sampleWorld fileT [{| entry_Name := "x_types.go"; entry_IsDir := false |}] [].

(** ** The earlier variant of the program (src/unnamed/part_000)

    The same [main], extractors, [writeGoFile] and
    [generateFilenameSuffix]; its [splitGoFile] reads no directory,
    keeps no [usedNames], names each file by [generateFilenameSuffix]
    alone and passes all imports to [writeGoFile].  The count is a
    natural number, as in [splitGoFile]: [main] passes positive counts
    only. *)
Module Legacy.
Section Program.
Context (w : World).

Section Loop.
Context (packageName : string) (imports : list ImportSpec)
        (typeDecls : list GenDecl) (functions : list FuncDecl)
        (baseFileName outputDir : string) (funcsPerFile : nat).

(** The loop [for i := 0; i < numFiles; i++], entered at [i] with
    [n = numFiles - i] iterations to go. *)
Fixpoint splitLoop (n i : nat) (st : Run) : Run * option string :=
  match n with
  | 0 => (st, None)
  | S n' =>
      let start := i * funcsPerFile in
      let end_ := start + funcsPerFile in
      let end_ := if bool_decide (length functions < end_)
                  then length functions else end_ in
      if bool_decide (length functions ≤ start) then (st, None)
      else
        let typesForFile := if bool_decide (i = 0) then typeDecls else [] in
        let suffix :=
          generateFilenameSuffix w (slice functions start end_)
            (bool_decide (i = 0)) in
        let outputFile :=
          filepath_Join w outputDir (Sprintf_go baseFileName suffix) in
        let it := {| it_start := start; it_end := end_;
                     it_functions := slice functions start end_;
                     it_typesForFile := typesForFile;
                     it_suffix := suffix;
                     it_outputFile := outputFile;
                     it_requiredImports := imports |} in
        match writeGoFile w (disk st) outputFile packageName imports
                typesForFile (slice functions start end_) with
        | (d', Some err) =>
            ({| usedNames := usedNames st; disk := d'; stdout := stdout st;
                iters := iters st ++ [it] |},
             Some ("failed to write " +:+ outputFile +:+ ": " +:+ err))
        | (d', None) =>
            splitLoop n' (S i)
              {| usedNames := usedNames st; disk := d';
                 stdout := stdout st ++ ["Created: " +:+ outputFile +:+ newline];
                 iters := iters st ++ [it] |}
        end
  end.

(** The local variables of iteration [i]. *)
Definition iterAt (i : nat) : Iter :=
  let start := i * funcsPerFile in
  let end_ := if bool_decide (length functions < start + funcsPerFile)
              then length functions else start + funcsPerFile in
  let suffix :=
    generateFilenameSuffix w (slice functions start end_) (bool_decide (i = 0)) in
  {| it_start := start; it_end := end_;
     it_functions := slice functions start end_;
     it_typesForFile := if bool_decide (i = 0) then typeDecls else [];
     it_suffix := suffix;
     it_outputFile := filepath_Join w outputDir (Sprintf_go baseFileName suffix);
     it_requiredImports := imports |}.
End Loop.

Definition splitGoFile (d : Disk) (inputFile : string) (numFiles : nat)
    : Run * Outcome :=
  match ParseFile w inputFile with
  | inr err => (initRun d, Return (Some ("failed to parse file: " +:+ err)))
  | inl node =>
      let packageName := file_Name node in
      let imports := extractImports node in
      let typeDecls := extractTypeDecls node in
      let functions := extractFunctions node in
      if bool_decide (length functions = 0)
      then (initRun d, Return (Some "no functions found in file"))
      else
        let baseFileName := TrimSuffix (filepath_Base w inputFile) ".go" in
        let outputDir := filepath_Dir w inputFile in
        if bool_decide (numFiles = 0)
        then (initRun d, Panic "runtime error: integer divide by zero")
        else
          let funcsPerFile := funcsPerFileOf (length functions) numFiles in
          let '(st, err) :=
            splitLoop packageName imports typeDecls functions baseFileName
              outputDir funcsPerFile numFiles 0 (initRun d) in
          (st, Return err)
  end.
End Program.
End Legacy.

(** Three functions with the keyword [parse] in their names. *)
Definition fileParse : File := sampleFile ["ParseA"; "ParseB"; "ParseC"].
Definition worldParse : World := sampleWorld fileParse [] [].

(** The sample world with a [strconv.Atoi] that reads the count 3. *)
Definition worldAtoi (input : File) : World :=
  {| ToLower := ToLower_ascii;
     filepath_Base := λ p, List.last (Split p "/"%char) "";
     filepath_Dir := λ _, ".";
     filepath_Join := λ dir name, dir +:+ "/" +:+ name;
     ParseFile := λ _, inl input;
     ReadDir := λ _, inl [];
     os_Create := λ _, None;
     format_Node := λ f, (file_Name f, None);
     Atoi := λ s, if bool_decide (s = "3") then inl 3%Z else inr "invalid syntax" |}.

(** [c] does not occur in [s]. *)
Definition lacks (c : ascii) (s : string) : Prop :=
  c ∉ String.list_ascii_of_string s.

Global Instance lacks_dec (c : ascii) (s : string) : Decision (lacks c s).
Proof. unfold lacks. apply _. Defined.

(** ** The bound name of an import, in the words of the specification

    The alias if present, otherwise the last segment of the import path.
    The import path is what the path literal of the import denotes: the
    text between its delimiters, which are double quotes or back
    quotes.  None of this is taken from [importName]. *)








(** * Properties *)

(** ** Identifier collection *)

(** Induction on a [Node] with a hypothesis for every child of an
    [OtherNode]. *)
Lemma Node_ind (P : Node → Prop) :
  (∀ Name, P (Ident Name)) →
  (∀ X Sel, P X → P (SelectorExpr X Sel)) →
  (∀ cs, Forall P cs → P (OtherNode cs)) →
  ∀ n, P n.
Proof.
  intros HI HS HO. fix IH 1. intros [Name|X Sel|cs].
  - apply HI.
  - apply HS, IH.
  - apply HO. induction cs as [|c cs IHcs]; constructor; [apply IH|apply IHcs].
Qed.

Lemma fold_left_Inspect (f : Node → gset string) (cs : list Node) (acc : gset string) :
  Forall (λ c, ∀ acc, Inspect recordIdent c acc = f c ∪ acc) cs →
  fold_left (λ a c, Inspect recordIdent c a) cs acc = ⋃ (f <$> cs) ∪ acc.
Proof.
  intros H. revert acc. induction H as [|c cs Hc _ IH]; intros acc; simpl.
  - set_solver.
  - rewrite IH, Hc. set_solver.
Qed.

Lemma Inspect_recordIdent (n : Node) (acc : gset string) :
  Inspect recordIdent n acc = identifiers n ∪ acc.
Proof.
  revert acc. induction n as [Name|X Sel IH|cs IH] using Node_ind; intros acc.
  - done.
  - simpl. rewrite IH. destruct X; simpl; set_solver.
  - simpl. rewrite (fold_left_Inspect identifiers) by done. done.
Qed.

Lemma usedIdentifiersOf_spec (functions : list FuncDecl) (typeDecls : list GenDecl) :
  usedIdentifiersOf functions typeDecls = groupIdentifiers functions typeDecls.
Proof.
  unfold usedIdentifiersOf, groupIdentifiers.
  assert (∀ (A : Type) (g : A → Node) (l : list A) (acc : gset string),
    fold_left (λ used x, Inspect recordIdent (g x) used) l acc
    = ⋃ (identifiers ∘ g <$> l) ∪ acc) as Hfold.
  { intros A g l. induction l as [|x l IH]; intros acc; simpl.
    - set_solver.
    - rewrite IH, Inspect_recordIdent. set_solver. }
  rewrite !Hfold. set_solver.
Qed.

Lemma analyzeRequiredImports_filter functions typeDecls allImports :
  analyzeRequiredImports functions typeDecls allImports
  = filter (λ imp, importName imp ∈ groupIdentifiers functions typeDecls) allImports.
Proof.
  unfold analyzeRequiredImports. by rewrite usedIdentifiersOf_spec.
Qed.

(** ** What an assembled file contains *)

Lemma extractFunctions_assembleFile packageName imports typeDecls functions :
  extractFunctions (assembleFile packageName imports typeDecls functions) = functions.
Proof.
  unfold extractFunctions, assembleFile; simpl.
  rewrite !omap_app.
  assert (∀ l : list GenDecl, omap (λ decl, match decl with
            | DeclFunc funcDecl => Some funcDecl | _ => None end) (DeclGen <$> l) = []) as Hg.
  { induction l; simpl; auto. }
  rewrite Hg. case_bool_decide; simpl; induction functions; simpl; f_equal; auto.
Qed.

Lemma extractImports_assembleFile packageName imports typeDecls functions :
  Forall (λ g, Tok g = TYPE) typeDecls →
  extractImports (assembleFile packageName imports typeDecls functions) = imports.
Proof.
  intros Hty. unfold extractImports, assembleFile; simpl.
  rewrite !flat_map_app.
  assert (flat_map (λ decl, match decl with
            | DeclGen genDecl =>
                if decide (Tok genDecl = IMPORT)
                then omap (λ spec, match spec with
                                   | SpecImport importSpec => Some importSpec
                                   | SpecOther _ => None
                                   end) (Specs genDecl)
                else []
            | _ => [] end) (DeclGen <$> typeDecls) = []) as ->.
  { induction Hty as [|g l Hg _ IH]; simpl; [done|]. rewrite Hg. simpl. done. }
  assert (∀ l : list FuncDecl, flat_map (λ decl, match decl with
            | DeclGen genDecl =>
                if decide (Tok genDecl = IMPORT)
                then omap (λ spec, match spec with
                                   | SpecImport importSpec => Some importSpec
                                   | SpecOther _ => None
                                   end) (Specs genDecl)
                else []
            | _ => [] end) (DeclFunc <$> l) = []) as ->.
  { induction l; simpl; auto. }
  rewrite !app_nil_r. case_bool_decide as Hlen; simpl.
  - rewrite app_nil_r. clear Hlen. induction imports; simpl; f_equal; auto.
  - destruct imports; simpl in *; [done|lia].
Qed.

Lemma extractTypeDecls_TYPE (node : File) :
  Forall (λ g, Tok g = TYPE) (extractTypeDecls node).
Proof.
  unfold extractTypeDecls. induction (file_Decls node) as [|decl l IH]; simpl.
  - constructor.
  - destruct decl as [g| |]; simpl; auto.
    destruct (decide (Tok g = TYPE)); simpl; auto.
Qed.

Lemma extractTypeDecls_assembleFile packageName imports typeDecls functions :
  Forall (λ g, Tok g = TYPE) typeDecls →
  extractTypeDecls (assembleFile packageName imports typeDecls functions) = typeDecls.
Proof.
  intros Hty. unfold extractTypeDecls, assembleFile; simpl.
  rewrite !omap_app.
  assert (∀ l : list FuncDecl, omap (λ decl, match decl with
            | DeclGen genDecl => if decide (Tok genDecl = TYPE) then Some genDecl else None
            | _ => None end) (DeclFunc <$> l) = []) as ->.
  { induction l; simpl; auto. }
  rewrite app_nil_r.
  assert (omap (λ decl, match decl with
            | DeclGen genDecl => if decide (Tok genDecl = TYPE) then Some genDecl else None
            | _ => None end) (DeclGen <$> typeDecls) = typeDecls) as ->.
  { induction Hty as [|g l Hg _ IH]; simpl; [done|].
    destruct (decide (Tok g = TYPE)); [|done]. simpl. f_equal. exact IH. }
  case_bool_decide; simpl; done.
Qed.

(** ** The loop of [splitGoFile] *)

Global Arguments generateFilenameSuffix : simpl never.
Global Arguments generateUniqueFilenameSuffix : simpl never.
Global Arguments analyzeRequiredImports : simpl never.
Global Arguments writeGoFile : simpl never.
Global Arguments assembleFile : simpl never.
Global Arguments Sprintf_go : simpl never.
Global Arguments Sprintf_sd : simpl never.
Global Arguments slice : simpl never.
Global Arguments iterAt : simpl never.

Lemma union_singleton_shift (s : string) (L used : gset string) :
  L ∪ ({[s]} ∪ used) = {[s]} ∪ L ∪ used.
Proof. set_solver. Qed.

Section LoopFacts.
Context (w : World).
Context (packageName : string) (imports : list ImportSpec)
        (typeDecls : list GenDecl) (functions : list FuncDecl)
        (baseFileName outputDir : string) (existingFiles : gset string)
        (funcsPerFile : nat).

Local Abbreviation iterAt_ :=
  (iterAt w imports typeDecls functions baseFileName outputDir existingFiles
     funcsPerFile).
Local Abbreviation plan_ :=
  (plan w imports typeDecls functions baseFileName outputDir existingFiles
     funcsPerFile).
Local Abbreviation writeErr_ := (writeErr w packageName).
Local Abbreviation writeDisk_ := (writeDisk w packageName).

Lemma writeGoFile_iter (d : Disk) (it : Iter) :
  writeGoFile w d (it_outputFile it) packageName (it_requiredImports it)
    (it_typesForFile it) (it_functions it) = (writeDisk_ d it, writeErr_ it).
Proof.
  unfold writeGoFile, writeDisk, writeErr, it_file.
  destruct (os_Create w (it_outputFile it)); [done|].
  by destruct (format_Node w _).
Qed.

Local Abbreviation loop :=
  (splitLoop w packageName imports typeDecls functions baseFileName outputDir
     existingFiles funcsPerFile).

Lemma splitLoop_S (n i : nat) (st : Run) :
  loop (S n) i st =
    if bool_decide (length functions ≤ i * funcsPerFile) then (st, None)
    else
      let it := iterAt_ i (usedNames st) in
      match writeErr_ it with
      | Some err =>
          ({| usedNames := {[it_suffix it]} ∪ usedNames st;
              disk := writeDisk_ (disk st) it; stdout := stdout st;
              iters := iters st ++ [it] |},
           Some ("failed to write " +:+ it_outputFile it +:+ ": " +:+ err))
      | None =>
          loop n (S i)
            {| usedNames := {[it_suffix it]} ∪ usedNames st;
               disk := writeDisk_ (disk st) it;
               stdout := stdout st ++ [created it];
               iters := iters st ++ [it] |}
      end.
Proof.
  cbn [splitLoop]. case_bool_decide; [done|].
  pose proof (writeGoFile_iter (disk st) (iterAt_ i (usedNames st))) as Hw.
  unfold iterAt in Hw |- *. cbn [it_start it_end it_functions it_typesForFile
    it_suffix it_outputFile it_requiredImports] in Hw |- *.
  rewrite Hw. by destruct (writeErr_ _).
Qed.

(** What a call of the loop does, in terms of [plan]. *)
(** What a call of the loop does, in terms of [plan]: the iterations
    it appends, the suffixes it records, and where it stops. *)
Lemma splitLoop_spec (n i : nat) (st st' : Run) (err : option string) :
  loop n i st = (st', err) →
  ∃ m, m ≤ n ∧
    iters st' = iters st ++ plan_ m i (usedNames st) ∧
    usedNames st'
      = list_to_set (it_suffix <$> plan_ m i (usedNames st)) ∪ usedNames st ∧
    (∀ j, j < m → (i + j) * funcsPerFile < length functions) ∧
    match err with
    | None =>
        Forall (λ it, writeErr_ it = None) (plan_ m i (usedNames st)) ∧
        disk st' = foldl writeDisk_ (disk st) (plan_ m i (usedNames st)) ∧
        stdout st' = stdout st ++ (created <$> plan_ m i (usedNames st)) ∧
        (m = n ∨ length functions ≤ (i + m) * funcsPerFile)
    | Some e =>
        ∃ done it err0,
          plan_ m i (usedNames st) = done ++ [it] ∧
          Forall (λ it, writeErr_ it = None) done ∧
          writeErr_ it = Some err0 ∧
          e = "failed to write " +:+ it_outputFile it +:+ ": " +:+ err0 ∧
          disk st' = writeDisk_ (foldl writeDisk_ (disk st) done) it ∧
          stdout st' = stdout st ++ (created <$> done)
    end.
Proof.
  revert i st. induction n as [|n IH]; intros i st Hrun.
  - cbn [splitLoop] in Hrun. injection Hrun as <- <-. exists 0.
    cbn [plan fmap list_fmap list_to_set foldr foldl].
    rewrite !app_nil_r, (left_id_L ∅ (∪)).
    split_and!; [lia|done|done|lia|constructor|done|done|by left].
  - rewrite splitLoop_S in Hrun. case_bool_decide as Hbrk.
    { injection Hrun as <- <-. exists 0.
      cbn [plan fmap list_fmap list_to_set foldr foldl].
      rewrite !app_nil_r, (left_id_L ∅ (∪)), Nat.add_0_r.
      split_and!; [lia|done|done|lia|constructor|done|done|by right]. }
    cbv zeta in Hrun.
    destruct (writeErr_ (iterAt_ i (usedNames st))) as [e0|] eqn:Hw.
    + injection Hrun as <- <-. exists 1.
      cbn [plan fmap list_fmap list_to_set foldr foldl usedNames iters disk stdout].
      rewrite (right_id_L ∅ (∪)).
      split_and!; [lia|done|done| |].
      * intros j Hj. replace (i + j) with i by lia. lia.
      * exists [], (iterAt_ i (usedNames st)), e0.
        cbn [app fmap list_fmap foldl]. rewrite app_nil_r.
        split_and!; [done|constructor|done|done|done|done].
    + apply IH in Hrun as (m & Hm & Hit & Hused & Hlt & Herr).
      cbn [usedNames iters disk stdout] in Hit, Hused, Herr.
      exists (S m).
      cbn [plan fmap list_fmap list_to_set foldr foldl].
      split; [lia|].
      split; [by rewrite Hit, <-app_assoc|].
      split; [by rewrite Hused, union_singleton_shift|].
      split.
      { intros [|j] Hj; [rewrite Nat.add_0_r; lia|].
        replace (i + S j) with (S i + j) by lia. apply Hlt. lia. }
      destruct err as [e|].
      * destruct Herr as (done & it & err0 & Hnew & Hdone & Hfail & He & Hd & Hout).
        exists (iterAt_ i (usedNames st) :: done), it, err0.
        rewrite Hnew. cbn [app fmap list_fmap foldl].
        split_and!; [done|by constructor|done|done|done|].
        by rewrite Hout, <-app_assoc.
      * destruct Herr as (Hok & Hd & Hout & Hend).
        split_and!; [by constructor|done| |].
        -- by rewrite Hout, <-app_assoc.
        -- destruct Hend as [->|Hend]; [by left|right].
           by replace (i + S m) with (S i + m) by lia.
Qed.

(** *** The planned iterations *)

Lemma length_plan (m i : nat) (used : gset string) : length (plan_ m i used) = m.
Proof. revert i used. induction m; intros; simpl; auto. Qed.

Lemma plan_lookup (m i : nat) (used : gset string) (j : nat) (it : Iter) :
  plan_ m i used !! j = Some it →
  it = iterAt_ (i + j)
         (list_to_set (it_suffix <$> take j (plan_ m i used)) ∪ used).
Proof.
  revert i used j. induction m as [|m IH]; intros i used j Hj.
  { destruct j; discriminate Hj. }
  destruct j as [|j]; cbn [plan lookup list_lookup take fmap list_fmap] in *.
  - injection Hj as <-. rewrite Nat.add_0_r.
    cbn [list_to_set foldr]. by rewrite (left_id_L ∅ (∪)).
  - apply IH in Hj. subst it. replace (S i + j) with (i + S j) by lia.
    cbn [list_to_set foldr]. by rewrite union_singleton_shift.
Qed.

Lemma plan_snoc (m i : nat) (used : gset string) :
  plan_ (S m) i used
  = plan_ m i used
    ++ [iterAt_ (i + m) (list_to_set (it_suffix <$> plan_ m i used) ∪ used)].
Proof.
  revert i used. induction m as [|m IH]; intros i used.
  - cbn [plan app fmap list_fmap list_to_set foldr]. rewrite Nat.add_0_r.
    by rewrite (left_id_L ∅ (∪)).
  - change (plan_ (S (S m)) i used) with
      (iterAt_ i used :: plan_ (S m) (S i) ({[it_suffix (iterAt_ i used)]} ∪ used)).
    rewrite IH. cbn [plan app fmap list_fmap list_to_set foldr].
    replace (S i + m) with (i + S m) by lia.
    by rewrite union_singleton_shift.
Qed.

Lemma iterAt_functions (i : nat) (used : gset string) :
  it_functions (iterAt_ i used)
  = take funcsPerFile (drop (i * funcsPerFile) functions).
Proof.
  unfold iterAt, slice; cbn [it_functions]. case_bool_decide as Hlen.
  - rewrite !take_ge; [done|rewrite length_drop; lia..].
  - replace (i * funcsPerFile + funcsPerFile - i * funcsPerFile)
      with funcsPerFile by lia. done.
Qed.

Lemma iterAt_typesForFile (i : nat) (used : gset string) :
  it_typesForFile (iterAt_ i used) = if bool_decide (i = 0) then typeDecls else [].
Proof. done. Qed.

Lemma plan_functions (m i : nat) (used : gset string) :
  concat (it_functions <$> plan_ m i used)
  = take (m * funcsPerFile) (drop (i * funcsPerFile) functions).
Proof.
  revert i used. induction m as [|m IH]; intros i used; [done|].
  cbn [plan fmap list_fmap concat]. rewrite IH, iterAt_functions.
  replace (S i * funcsPerFile) with (i * funcsPerFile + funcsPerFile) by lia.
  by rewrite <-drop_drop, take_take_drop.
Qed.
End LoopFacts.

(** ** Arithmetic of the partition *)

Lemma ceil_div_spec (a b : nat) :
  0 < b → 0 < a → b * (ceil_div a b - 1) < a ∧ a ≤ b * ceil_div a b.
Proof.
  intros Hb Ha. unfold ceil_div.
  pose proof (Nat.div_mod (a + b - 1) b ltac:(lia)) as Hdm.
  pose proof (Nat.mod_upper_bound (a + b - 1) b ltac:(lia)) as Hmod.
  assert (1 ≤ (a + b - 1) / b) as Hpos.
  { apply Nat.div_le_lower_bound; lia. }
  split; nia.
Qed.

Lemma ceil_div_unique (a b c : nat) :
  0 < b → 0 < a → b * (c - 1) < a → a ≤ b * c → c = ceil_div a b.
Proof.
  intros Hb Ha Hlo Hhi. destruct (ceil_div_spec a b Hb Ha) as [Hlo' Hhi'].
  set (c' := ceil_div a b) in *. nia.
Qed.

Lemma funcsPerFileOf_ceil_div (len numFiles : nat) :
  0 < numFiles → funcsPerFileOf len numFiles = ceil_div len numFiles.
Proof.
  intros HN. unfold funcsPerFileOf.
  pose proof (Nat.div_mod len numFiles ltac:(lia)) as Hdm.
  pose proof (Nat.mod_upper_bound len numFiles ltac:(lia)) as Hmod.
  destruct (decide (len = 0)) as [->|Hlen].
  { rewrite Nat.Div0.mod_0_l, Nat.Div0.div_0_l. rewrite bool_decide_false by lia.
    unfold ceil_div. symmetry. apply Nat.div_small. lia. }
  apply ceil_div_unique; [lia|lia|..]; case_bool_decide; nia.
Qed.

Lemma funcsPerFileOf_bounds (len numFiles : nat) :
  0 < numFiles → 0 < len →
  (1 ≤ funcsPerFileOf len numFiles ≤ len)
  ∧ len ≤ numFiles * funcsPerFileOf len numFiles.
Proof.
  intros HN Hlen. rewrite funcsPerFileOf_ceil_div by done.
  destruct (ceil_div_spec len numFiles HN Hlen) as [Hlo Hhi].
  set (c := ceil_div len numFiles) in *. split; [split|]; nia.
Qed.

(** No [int] of the loop leaves the 64-bit range: an iteration is only
    entered after the previous start was inside the list. *)
Lemma loop_ints_bounded (len numFiles i : nat) :
  0 < numFiles → 0 < len →
  (i = 0 ∨ (i - 1) * funcsPerFileOf len numFiles < len) →
  i * funcsPerFileOf len numFiles + funcsPerFileOf len numFiles ≤ 3 * len.
Proof.
  intros HN Hlen Hi.
  destruct (funcsPerFileOf_bounds len numFiles HN Hlen) as [[H1 H2] _].
  set (c := funcsPerFileOf len numFiles) in *. nia.
Qed.

(** ** The suffix namer *)

Global Opaque keywords alternatives.

Lemma isFree_spec baseFileName existingFiles usedNames suffix :
  isFree baseFileName existingFiles usedNames suffix = true
  ↔ (Sprintf_go baseFileName suffix ∉ existingFiles) ∧ (suffix ∉ usedNames).
Proof.
  unfold isFree. rewrite andb_true_iff, !bool_decide_eq_true. done.
Qed.

Lemma find_None_forallb {A : Type} (f : A → bool) (l : list A) :
  find f l = None ↔ forallb (λ x, negb (f x)) l = true.
Proof.
  induction l as [|x l IH]; simpl; [done|].
  destruct (f x); simpl; [split; discriminate|exact IH].
Qed.

Section Namer.
Context (w : World).
Context (functions : list FuncDecl) (hasTypes : bool) (baseFileName : string)
        (existingFiles usedNames : gset string).

Local Abbreviation base := (generateFilenameSuffix w functions hasTypes).
Local Abbreviation chosen :=
  (generateUniqueFilenameSuffix w functions hasTypes baseFileName existingFiles
     usedNames).
Local Abbreviation free := (isFree baseFileName existingFiles usedNames).

Lemma unique_base_free : free base = true → chosen = base.
Proof. unfold generateUniqueFilenameSuffix. by intros ->. Qed.

Lemma unique_alternative (alt : string) :
  free base = false → find free alternatives = Some alt → chosen = alt.
Proof. unfold generateUniqueFilenameSuffix. by intros -> ->. Qed.

Lemma unique_numbered (s : string) :
  free base = false → find free alternatives = None →
  find free (Sprintf_sd base <$> seq 1 999) = Some s → chosen = s.
Proof. unfold generateUniqueFilenameSuffix. by intros -> -> ->. Qed.

Lemma unique_exhausted :
  exhausted baseFileName existingFiles usedNames base = true →
  chosen = Sprintf_sd base 999.
Proof.
  unfold exhausted. rewrite !andb_true_iff, negb_true_iff, <-!find_None_forallb.
  intros [[Hb Ha] Hn]. unfold generateUniqueFilenameSuffix.
  by rewrite Hb, Ha, Hn.
Qed.

Lemma unique_free :
  exhausted baseFileName existingFiles usedNames base = false →
  free chosen = true.
Proof.
  unfold exhausted, generateUniqueFilenameSuffix.
  destruct (free base) eqn:Hb; [done|].
  destruct (find free alternatives) as [alt|] eqn:Ha.
  { intros _. by apply find_some in Ha as [_ ?]. }
  destruct (find free (Sprintf_sd base <$> seq 1 999)) as [s|] eqn:Hn.
  { intros _. by apply find_some in Hn as [_ ?]. }
  apply find_None_forallb in Ha, Hn. rewrite Ha, Hn. done.
Qed.
End Namer.

(** ** Runs of [splitGoFile] *)

Global Arguments splitLoop : simpl never.

(** A run either stops before the loop, with nothing done, or is the
    loop started on the values [splitGoFile] computes. *)
Lemma splitGoFile_cases (w : World) (d : Disk) (inputFile : string)
    (numFiles : nat) (node : File) (st : Run) (out : Outcome) :
  ParseFile w inputFile = inl node →
  splitGoFile w d inputFile numFiles = (st, out) →
  (st = initRun d ∧ out ≠ Return None)
  ∨ (extractFunctions node ≠ [] ∧ 0 < numFiles ∧
     ∃ err, out = Return err ∧
       splitLoop w (file_Name node) (extractImports node) (extractTypeDecls node)
         (extractFunctions node) (baseFileNameOf w inputFile)
         (filepath_Dir w inputFile) (existingFilesOf w inputFile)
         (funcsPerFileOf (length (extractFunctions node)) numFiles)
         numFiles 0 (initRun d) = (st, err)).
Proof.
  intros Hparse. unfold splitGoFile, existingFilesOf, baseFileNameOf.
  rewrite Hparse.
  case_bool_decide as Hlen.
  { intros [= <- <-]. by left. }
  destruct (getExistingFiles w (filepath_Dir w inputFile)) as [existing [e|]].
  { intros [= <- <-]. by left. }
  case_bool_decide as HN.
  { intros [= <- <-]. by left. }
  cbn [fst].
  destruct (splitLoop _ _ _ _ _ _ _ _ _ _ _ _) as [st1 err] eqn:Hloop.
  intros [= <- <-]. right. split; [|split; [lia|]].
  - intros Hnil. by rewrite Hnil in Hlen.
  - by exists err.
Qed.

(** The iterations of any run are a prefix of the planned ones. *)
Lemma splitGoFile_plan (w : World) (d : Disk) (inputFile : string)
    (numFiles : nat) (node : File) (st : Run) (out : Outcome) :
  ParseFile w inputFile = inl node →
  splitGoFile w d inputFile numFiles = (st, out) →
  ∃ m, m ≤ numFiles ∧ iters st = planOf w node inputFile numFiles m
    ∧ usedNames st = list_to_set (it_suffix <$> iters st)
    ∧ (∀ j, j < m →
         j * funcsPerFileOf (length (extractFunctions node)) numFiles
         < length (extractFunctions node)).
Proof.
  intros Hparse Hrun.
  destruct (splitGoFile_cases _ _ _ _ _ _ _ Hparse Hrun)
    as [[-> _]|(_ & _ & err & -> & Hloop)].
  - exists 0. split_and!; [lia|done|done|lia].
  - apply splitLoop_spec in Hloop as (m & Hm & Hit & Hused & Hlt & _).
    exists m. cbn [initRun iters usedNames app] in Hit, Hused.
    rewrite (right_id_L ∅ (∪)) in Hused.
    split_and!; [done|done|by rewrite Hit|exact Hlt].
Qed.

(** A run that returns no error did all the planned iterations: as many
    as there are groups. *)
Lemma splitGoFile_success (w : World) (d : Disk) (inputFile : string)
    (numFiles : nat) (node : File) (st : Run) :
  ParseFile w inputFile = inl node →
  splitGoFile w d inputFile numFiles = (st, Return None) →
  let len := length (extractFunctions node) in
  let c := funcsPerFileOf len numFiles in
  0 < numFiles ∧ 0 < len ∧
  iters st = planOf w node inputFile numFiles (ceil_div len c) ∧
  stdout st = created <$> iters st ∧
  Forall (λ it, writeErr w (file_Name node) it = None) (iters st) ∧
  disk st = foldl (writeDisk w (file_Name node)) d (iters st).
Proof.
  intros Hparse Hrun len c.
  destruct (splitGoFile_cases _ _ _ _ _ _ _ Hparse Hrun)
    as [[_ ?]|(Hfun & HN & err & [= <-] & Hloop)]; [done|].
  assert (0 < len) as Hlen.
  { subst len. destruct (extractFunctions node); [done|simpl; lia]. }
  apply splitLoop_spec in Hloop as (m & Hm & Hit & _ & Hlt & Hok & Hd & Hout & Hend).
  cbn [initRun iters usedNames app disk stdout] in Hit, Hok, Hd, Hout, Hend, Hlt.
  destruct (funcsPerFileOf_bounds len numFiles HN Hlen) as [[Hc1 Hc2] Hc3].
  fold len c in Hlt, Hend, Hc1, Hc2, Hc3.
  assert (m = ceil_div len c) as <-.
  { apply ceil_div_unique; [lia|lia| |].
    - destruct m as [|m]; [lia|]. specialize (Hlt m ltac:(lia)). nia.
    - destruct Hend as [->|Hend]; [lia|nia]. }
  split_and!; [done|done|exact Hit| | |].
  - by rewrite Hit, Hout.
  - by rewrite Hit.
  - by rewrite Hit, Hd.
Qed.

Lemma plan_lengths (w : World) imports typeDecls functions baseFileName outputDir
    existingFiles funcsPerFile (m i : nat) (used : gset string) :
  length ∘ it_functions
    <$> plan w imports typeDecls functions baseFileName outputDir existingFiles
          funcsPerFile m i used
  = (λ k, funcsPerFile `min` (length functions - k * funcsPerFile)) <$> seq i m.
Proof.
  revert i used. induction m as [|m IH]; intros i used; [done|].
  cbn [plan seq fmap list_fmap]. rewrite IH. f_equal.
  unfold compose. rewrite iterAt_functions, length_take, length_drop. done.
Qed.

(** * The partition *)

(** C1. On a run that returns no error, the function lists of the
    iterations, concatenated in order, are the function declarations of
    the input: nothing is lost, repeated or reordered.  The same holds
    for the functions of the files handed to the printer. *)
Theorem groups_concat_is_input (w : World) (d : Disk) (inputFile : string)
    (numFiles : nat) (node : File) (st : Run) :
  ParseFile w inputFile = inl node →
  splitGoFile w d inputFile numFiles = (st, Return None) →
  concat (it_functions <$> iters st) = extractFunctions node
  ∧ concat (extractFunctions ∘ it_file (file_Name node) <$> iters st)
    = extractFunctions node.
Proof.
  intros Hparse Hrun.
  destruct (splitGoFile_success _ _ _ _ _ _ Hparse Hrun)
    as (HN & Hlen & Hit & _).
  assert (concat (it_functions <$> iters st) = extractFunctions node) as Hcat.
  { rewrite Hit. unfold planOf. rewrite plan_functions, drop_0.
    apply take_ge.
    destruct (funcsPerFileOf_bounds _ _ HN Hlen) as [[Hc1 _] _].
    destruct (ceil_div_spec (length (extractFunctions node))
                (funcsPerFileOf (length (extractFunctions node)) numFiles))
      as [_ Hhi]; lia. }
  split; [done|].
  rewrite <-Hcat. f_equal. apply list_fmap_ext. intros _ it _.
  unfold compose, it_file. apply extractFunctions_assembleFile.
Qed.

Lemma groups_concat_is_input_witness :
  concat (it_functions <$> iters (splitGoFile world7 ∅ "x.go" 3).1)
  = extractFunctions file7.
Proof.
  apply (groups_concat_is_input world7 ∅ "x.go" 3 file7
           (splitGoFile world7 ∅ "x.go" 3).1).
  - reflexivity.
  - vm_compute. reflexivity.
Defined.

(** C4. With [F] functions and [N] requested files, a run that returns
    no error makes groups of [ceil(F/N)] consecutive functions: group [k]
    is [functions[k*c : k*c+c]] cut at the end of the list, no group is
    empty, every group but the last has exactly [c] functions, and there
    are at most [min N F] groups.  Seven functions in three files give
    sizes 3, 3, 1; five files for two functions give two groups. *)
Theorem partition_contiguous_ceil (w : World) (d : Disk) (inputFile : string)
    (numFiles : nat) (node : File) (st : Run) :
  ParseFile w inputFile = inl node →
  splitGoFile w d inputFile numFiles = (st, Return None) →
  let functions := extractFunctions node in
  let c := ceil_div (length functions) numFiles in
  1 ≤ numFiles ∧
  (∀ k it, iters st !! k = Some it →
     it_functions it = take c (drop (k * c) functions)
     ∧ it_functions it ≠ []
     ∧ length (it_functions it) ≤ c
     ∧ (S k < length (iters st) → length (it_functions it) = c))
  ∧ length (iters st) ≤ numFiles `min` length functions
  ∧ (length functions = 7 → numFiles = 3 →
     length ∘ it_functions <$> iters st = [3; 3; 1])
  ∧ (length functions = 2 → numFiles = 5 → length (iters st) = 2).
Proof.
  intros Hparse Hrun functions c.
  destruct (splitGoFile_success _ _ _ _ _ _ Hparse Hrun)
    as (HN & Hlen & Hit & _).
  fold functions in Hlen, Hit.
  rewrite funcsPerFileOf_ceil_div in Hit by done. fold c in Hit.
  destruct (funcsPerFileOf_bounds _ _ HN Hlen) as [[Hc1 Hc2] Hc3].
  rewrite funcsPerFileOf_ceil_div in Hc1, Hc2, Hc3 by done.
  fold functions c in Hc1, Hc2, Hc3.
  destruct (ceil_div_spec (length functions) c ltac:(lia) Hlen) as [Hlo Hhi].
  assert (length (iters st) = ceil_div (length functions) c) as Hcount.
  { rewrite Hit. unfold planOf. apply length_plan. }
  set (G := ceil_div (length functions) c) in *.
  unfold planOf in Hit. rewrite funcsPerFileOf_ceil_div in Hit by done.
  fold functions c in Hit.
  split; [lia|]. split; [|split; [|split]].
  - intros k it Hk.
    assert (k < G) as HkG.
    { apply lookup_lt_Some in Hk. lia. }
    rewrite Hit in Hk. apply plan_lookup in Hk as ->.
    rewrite iterAt_functions. cbn [Nat.add].
    assert (k * c < length functions) by nia.
    split_and!; [done| | |].
    + intros Hnil%(f_equal length).
      rewrite length_take, length_drop in Hnil. simpl in Hnil. lia.
    + rewrite length_take. lia.
    + intros Hlast. rewrite length_take, length_drop. nia.
  - apply Nat.min_glb; nia.
  - intros HF ->. rewrite Hit, plan_lengths. fold functions.
    subst G c. rewrite HF. reflexivity.
  - intros HF ->. rewrite Hcount. subst G c. rewrite HF. reflexivity.
Qed.

Lemma partition_contiguous_ceil_witness :
  length ∘ it_functions <$> iters (splitGoFile world7 ∅ "x.go" 3).1 = [3; 3; 1].
Proof.
  apply (partition_contiguous_ceil world7 ∅ "x.go" 3 file7
           (splitGoFile world7 ∅ "x.go" 3).1);
    [reflexivity|vm_compute; reflexivity|reflexivity|reflexivity].
Defined.

(** C10. A run that returns no error writes [ceil(F / ceil(F/N))] files
    and prints as many lines.  For five functions and four requested
    files that is three, fewer than [min 4 5]. *)
Theorem files_written_count (w : World) (d : Disk) (inputFile : string)
    (numFiles : nat) (node : File) (st : Run) :
  ParseFile w inputFile = inl node →
  splitGoFile w d inputFile numFiles = (st, Return None) →
  let F := length (extractFunctions node) in
  1 ≤ F ∧ 1 ≤ numFiles
  ∧ length (iters st) = ceil_div F (ceil_div F numFiles)
  ∧ length (stdout st) = ceil_div F (ceil_div F numFiles)
  ∧ (F = 5 → numFiles = 4 →
     length (iters st) = 3 ∧ length (iters st) < numFiles `min` F).
Proof.
  intros Hparse Hrun F.
  destruct (splitGoFile_success _ _ _ _ _ _ Hparse Hrun)
    as (HN & Hlen & Hit & Hout & _).
  fold F in Hlen, Hit.
  assert (length (iters st) = ceil_div F (ceil_div F numFiles)) as Hcount.
  { rewrite Hit. unfold planOf. rewrite length_plan.
    by rewrite funcsPerFileOf_ceil_div. }
  split_and!; [lia|lia|done| |].
  - by rewrite Hout, length_fmap.
  - intros HF ->. rewrite Hcount, HF. split; [reflexivity|].
    vm_compute. lia.
Qed.

Lemma files_written_count_witness :
  length (iters (splitGoFile world5 ∅ "x.go" 4).1) = 3
  ∧ length (stdout (splitGoFile world5 ∅ "x.go" 4).1) = 3.
Proof.
  pose proof (files_written_count world5 ∅ "x.go" 4 file5
                (splitGoFile world5 ∅ "x.go" 4).1 eq_refl
                ltac:(vm_compute; reflexivity)) as (_ & _ & Hi & Ho & _).
  split; [exact Hi|exact Ho].
Defined.

(** * Type declarations and imports *)

(** C5. In every run, the iteration with index 0 passes the whole
    type-declaration list of the input to [writeGoFile], also when that
    list is empty, and every later iteration passes none; the files
    handed to the printer carry exactly these type declarations.  A run
    that returns no error has an iteration 0. *)
Theorem types_only_in_group_zero (w : World) (d : Disk) (inputFile : string)
    (numFiles : nat) (node : File) (st : Run) (out : Outcome) :
  ParseFile w inputFile = inl node →
  splitGoFile w d inputFile numFiles = (st, out) →
  (∀ k it, iters st !! k = Some it →
     it_typesForFile it = (if bool_decide (k = 0) then extractTypeDecls node else [])
     ∧ extractTypeDecls (it_file (file_Name node) it) = it_typesForFile it)
  ∧ (out = Return None → ∃ it, iters st !! 0 = Some it).
Proof.
  intros Hparse Hrun. split.
  - destruct (splitGoFile_plan _ _ _ _ _ _ _ Hparse Hrun) as (m & _ & Hit & _).
    intros k it Hk. rewrite Hit in Hk. unfold planOf in Hk.
    apply plan_lookup in Hk as ->. rewrite iterAt_typesForFile. cbn [Nat.add].
    split; [done|].
    unfold it_file. rewrite iterAt_typesForFile.
    apply extractTypeDecls_assembleFile.
    case_bool_decide; [apply extractTypeDecls_TYPE|constructor].
  - intros ->.
    destruct (splitGoFile_success _ _ _ _ _ _ Hparse Hrun)
      as (HN & Hlen & Hit & _).
    apply lookup_lt_is_Some_2. rewrite Hit. unfold planOf. rewrite length_plan.
    destruct (funcsPerFileOf_bounds _ _ HN Hlen) as [[Hc1 _] _].
    destruct (ceil_div_spec (length (extractFunctions node))
                (funcsPerFileOf (length (extractFunctions node)) numFiles)
                ltac:(lia) Hlen) as [_ Hhi].
    destruct (ceil_div _ _); lia.
Qed.

Lemma types_only_in_group_zero_witness :
  it_typesForFile <$> iters (splitGoFile worldT ∅ "x.go" 2).1 = [[pointType]; []]
  ∧ ∃ it, iters (splitGoFile worldT ∅ "x.go" 2).1 !! 0 = Some it.
Proof.
  split; [vm_compute; reflexivity|].
  apply (types_only_in_group_zero worldT ∅ "x.go" 2 fileT
           (splitGoFile worldT ∅ "x.go" 2).1 (Return None));
    [reflexivity|vm_compute; reflexivity|reflexivity].
Defined.

(** C8. If the input has no function declaration, whatever else it
    has, [splitGoFile] returns the error [no functions found in file]
    before it reads the directory or enters the loop: the disk is
    untouched, nothing is printed, no iteration is done. *)
Theorem no_functions_error (w : World) (d : Disk) (inputFile : string)
    (numFiles : nat) (node : File) :
  ParseFile w inputFile = inl node →
  extractFunctions node = [] →
  splitGoFile w d inputFile numFiles
  = ({| usedNames := ∅; disk := d; stdout := []; iters := [] |},
     Return (Some "no functions found in file")).
Proof.
  intros Hparse Hnil. unfold splitGoFile. rewrite Hparse, Hnil.
  by rewrite bool_decide_true.
Qed.

Lemma no_functions_error_witness :
  extractTypeDecls fileOnlyTypes = [pointType]
  ∧ splitGoFile (sampleWorld fileOnlyTypes [] []) ∅ "x.go" 2
    = ({| usedNames := ∅; disk := ∅; stdout := []; iters := [] |},
       Return (Some "no functions found in file")).
Proof.
  split; [reflexivity|].
  apply (no_functions_error (sampleWorld fileOnlyTypes [] []) ∅ "x.go" 2
           fileOnlyTypes); reflexivity.
Defined.

(** * Write errors *)

Section WriteFacts.
Context (w : World) (packageName : string).

Local Abbreviation wErr := (writeErr w packageName).
Local Abbreviation wDisk := (writeDisk w packageName).

Lemma writeDisk_lookup_ne (d : Disk) (it : Iter) (p : string) :
  p ≠ it_outputFile it → wDisk d it !! p = d !! p.
Proof.
  intros Hp. unfold writeDisk. destruct (os_Create w (it_outputFile it)); [done|].
  by rewrite lookup_insert_ne.
Qed.


Lemma writeDisk_lookup_ok (d : Disk) (it : Iter) :
  wErr it = None →
  wDisk d it !! it_outputFile it
  = Some (format_Node w (it_file packageName it)).1.
Proof.
  unfold writeErr, writeDisk.
  destruct (os_Create w (it_outputFile it)); [done|].
  intros _. by rewrite lookup_insert_eq.
Qed.

End WriteFacts.



(** * Suffixes *)

Lemma iterAt_suffix (w : World) imports typeDecls functions baseFileName outputDir
    existingFiles funcsPerFile (i : nat) (used : gset string) :
  it_suffix (iterAt w imports typeDecls functions baseFileName outputDir
               existingFiles funcsPerFile i used)
  = generateUniqueFilenameSuffix w
      (it_functions (iterAt w imports typeDecls functions baseFileName outputDir
                       existingFiles funcsPerFile i used))
      (bool_decide (i = 0)) baseFileName existingFiles used.
Proof. done. Qed.

(** In a run that enters the loop, iteration 0 starts from the empty
    [usedNames]. *)
Lemma splitGoFile_first_iteration (w : World) (d : Disk) (inputFile : string)
    (numFiles : nat) (node : File) (st : Run) (out : Outcome) (it : Iter) :
  ParseFile w inputFile = inl node →
  splitGoFile w d inputFile numFiles = (st, out) →
  iters st !! 0 = Some it →
  it_suffix it
  = generateUniqueFilenameSuffix w (it_functions it) true
      (baseFileNameOf w inputFile) (existingFilesOf w inputFile) ∅.
Proof.
  intros Hparse Hrun Hit.
  destruct (splitGoFile_plan _ _ _ _ _ _ _ Hparse Hrun) as (m & _ & Hplan & _).
  rewrite Hplan in Hit. unfold planOf in Hit. apply plan_lookup in Hit.
  rewrite take_0 in Hit. cbn [fmap list_fmap list_to_set foldr Nat.add] in Hit.
  rewrite (left_id_L ∅ (∪)) in Hit. rewrite Hit. apply iterAt_suffix.
Qed.

(** C3, as the code has it.  In every run, an iteration for which the
    candidates are not all taken gets a suffix that no earlier iteration
    of the run got and whose file name [<base>_<suffix>.go] is not in the
    directory snapshot; and [usedNames] holds exactly the suffixes chosen
    so far.  (When all candidates are taken the suffix is
    [<baseSuffix>999], unchecked.) *)
Theorem suffix_fresh_unless_exhausted (w : World) (d : Disk) (inputFile : string)
    (numFiles : nat) (node : File) (st : Run) (out : Outcome)
    (k : nat) (it : Iter) :
  ParseFile w inputFile = inl node →
  splitGoFile w d inputFile numFiles = (st, out) →
  iters st !! k = Some it →
  exhausted (baseFileNameOf w inputFile) (existingFilesOf w inputFile)
    (list_to_set (it_suffix <$> take k (iters st)))
    (generateFilenameSuffix w (it_functions it) (bool_decide (k = 0))) = false →
  (∀ j it', j < k → iters st !! j = Some it' → it_suffix it' ≠ it_suffix it)
  ∧ (Sprintf_go (baseFileNameOf w inputFile) (it_suffix it)
     ∉ existingFilesOf w inputFile)
  ∧ usedNames st = list_to_set (it_suffix <$> iters st).
Proof.
  intros Hparse Hrun Hk Hex.
  destruct (splitGoFile_plan _ _ _ _ _ _ _ Hparse Hrun)
    as (m & _ & Hplan & Hused & _).
  pose proof Hk as Hk'. rewrite Hplan in Hk'. unfold planOf in Hk'.
  apply plan_lookup in Hk'. cbn [Nat.add] in Hk'.
  fold (planOf w node inputFile numFiles m) in Hk'. rewrite <-Hplan in Hk'.
  rewrite (right_id_L ∅ (∪)) in Hk'.
  assert (isFree (baseFileNameOf w inputFile) (existingFilesOf w inputFile)
            (list_to_set (it_suffix <$> take k (iters st))) (it_suffix it) = true)
    as Hfree.
  { rewrite Hk'. rewrite iterAt_suffix. apply unique_free.
    rewrite <-Hk'. exact Hex. }
  apply isFree_spec in Hfree as [Hfile Hnew].
  split_and!; [|done|done].
  intros j it' Hj Hj' Heq. apply Hnew. rewrite <-Heq.
  apply elem_of_list_to_set, list_elem_of_fmap. exists it'. split; [done|].
  apply list_elem_of_lookup. exists j. by rewrite lookup_take_lt.
Qed.

Lemma suffix_fresh_unless_exhausted_witness :
  it_suffix <$> iters (splitGoFile world7bad ∅ "x.go" 3).1 = ["types"; "load"]
  ∧ ∀ j it', j < 1 →
      iters (splitGoFile world7bad ∅ "x.go" 3).1 !! j = Some it' →
      it_suffix it' ≠ it_suffix iter7bad.
Proof.
  split; [vm_compute; reflexivity|].
  apply (suffix_fresh_unless_exhausted world7bad ∅ "x.go" 3 file7
           (splitGoFile world7bad ∅ "x.go" 3).1
           (splitGoFile world7bad ∅ "x.go" 3).2 1 iter7bad);
    [reflexivity|vm_compute; reflexivity..].
Defined.

Lemma getExistingFiles_spec (w : World) (dir : string) (entries : list DirEntry) :
  ReadDir w dir = inl entries →
  getExistingFiles w dir
  = (list_to_set (entry_Name <$>
       filter (λ e, negb (entry_IsDir e) && HasSuffix (entry_Name e) ".go" = true)
         entries), None).
Proof.
  intros Hdir. unfold getExistingFiles. rewrite Hdir. f_equal.
  assert (∀ acc : gset string,
    fold_left (λ files entry,
      if negb (entry_IsDir entry) && HasSuffix (entry_Name entry) ".go"
      then {[entry_Name entry]} ∪ files else files) entries acc
    = list_to_set (entry_Name <$>
        filter (λ e, negb (entry_IsDir e) && HasSuffix (entry_Name e) ".go" = true)
          entries) ∪ acc) as Hfold.
  { clear Hdir. induction entries as [|e entries IH]; intros acc; simpl.
    - by rewrite (left_id_L ∅ (∪)).
    - rewrite IH, filter_cons.
      destruct (negb (entry_IsDir e) && HasSuffix (entry_Name e) ".go") eqn:He.
      + rewrite decide_True by done. simpl. set_solver.
      + rewrite decide_False by done. done. }
  rewrite Hfold. apply (right_id_L ∅ (∪)).
Qed.

(** A run on a parsed file with functions, a readable directory and a
    positive count reaches [writeGoFile] at least once. *)
Lemma splitGoFile_enters_loop (w : World) (d : Disk) (inputFile : string)
    (numFiles : nat) (node : File) (entries : list DirEntry) :
  ParseFile w inputFile = inl node →
  extractFunctions node ≠ [] →
  ReadDir w (filepath_Dir w inputFile) = inl entries →
  0 < numFiles →
  ∃ it, iters (splitGoFile w d inputFile numFiles).1 !! 0 = Some it.
Proof.
  intros Hparse Hfun Hdir HN. unfold splitGoFile. rewrite Hparse.
  rewrite bool_decide_false by (by destruct (extractFunctions node)).
  rewrite (getExistingFiles_spec _ _ _ Hdir).
  rewrite bool_decide_false by lia.
  destruct numFiles as [|n]; [lia|].
  rewrite splitLoop_S. rewrite bool_decide_false.
  2:{ destruct (extractFunctions node); [done|simpl; lia]. }
  cbv zeta. destruct (writeErr _ _ _) as [e|].
  { cbn [fst iters initRun app]. eauto. }
  destruct (splitLoop _ _ _ _ _ _ _ _ _ _ _ _) as [st err] eqn:Hloop.
  apply splitLoop_spec in Hloop as (m & _ & Hit & _).
  cbn [fst iters initRun app] in Hit |- *. rewrite Hit. cbn [app]. eauto.
Qed.

(** ** Strings: suffixes *)

Lemma rev_app_app (s1 s2 acc : string) :
  String.rev_app (s1 +:+ s2) acc = String.rev_app s2 (String.rev_app s1 acc).
Proof. revert acc. induction s1 as [|c s1 IH]; intros acc; simpl; auto. Qed.

Lemma append_assoc (s1 s2 s3 : string) : (s1 +:+ s2) +:+ s3 = s1 +:+ s2 +:+ s3.
Proof.
  induction s1 as [|c s1 IH]; [done|].
  change (String c ((s1 +:+ s2) +:+ s3) = String c (s1 +:+ s2 +:+ s3)).
  by rewrite IH. Qed.

Lemma rev_app_acc (s acc : string) :
  String.rev_app s acc = String.rev_app s "" +:+ acc.
Proof.
  revert acc. induction s as [|c s IH]; intros acc; simpl; [done|].
  rewrite (IH (String c acc)), (IH (String c "")).
  by rewrite append_assoc.
Qed.

Lemma rev_append (s1 s2 : string) :
  String.rev (s1 +:+ s2) = String.rev s2 +:+ String.rev s1.
Proof. unfold String.rev. by rewrite rev_app_app, rev_app_acc. Qed.

Lemma prefix_append (p s : string) : String.prefix p (p +:+ s) = true.
Proof.
  induction p as [|c p IH]; simpl; [by destruct s|].
  destruct (ascii_dec c c); [exact IH|done].
Qed.

Lemma HasSuffix_append (s suffix : string) : HasSuffix (s +:+ suffix) suffix = true.
Proof. unfold HasSuffix. rewrite rev_append. apply prefix_append. Qed.

Lemma HasSuffix_Sprintf_go (baseFileName suffix : string) :
  HasSuffix (Sprintf_go baseFileName suffix) ".go" = true.
Proof.
  unfold Sprintf_go. rewrite <-!append_assoc. apply HasSuffix_append.
Qed.

Lemma isFree_taken_file (baseFileName : string) (existingFiles usedNames : gset string)
    (suffix : string) :
  Sprintf_go baseFileName suffix ∈ existingFiles →
  isFree baseFileName existingFiles usedNames suffix = false.
Proof.
  intros Hin. unfold isFree. by rewrite bool_decide_false by (by intros H; apply H).
Qed.

Lemma names_of_fullEntries (l : list string) :
  entry_Name <$>
    filter (λ e, negb (entry_IsDir e) && HasSuffix (entry_Name e) ".go" = true)
      ((λ s, {| entry_Name := Sprintf_go "x" s; entry_IsDir := false |}) <$> l)
  = Sprintf_go "x" <$> l.
Proof.
  induction l as [|s l IH]; [done|].
  rewrite !fmap_cons, filter_cons.
  cbn [entry_IsDir entry_Name negb andb]. rewrite HasSuffix_Sprintf_go.
  rewrite decide_True by done. rewrite fmap_cons. cbn [entry_Name]. by rewrite IH.
Qed.

Lemma existingFilesOf_worldFull :
  existingFilesOf worldFull "x.go" = list_to_set (Sprintf_go "x" <$> takenSuffixes).
Proof.
  unfold existingFilesOf.
  rewrite (getExistingFiles_spec worldFull _ fullEntries eq_refl).
  unfold fst.
  unfold fullEntries.
  rewrite names_of_fullEntries.
  reflexivity.
Qed.

Lemma exhausted_of_taken (baseFileName : string) (existingFiles usedNames : gset string)
    (baseSuffix : string) :
  (∀ s, s ∈ baseSuffix :: alternatives ++ (Sprintf_sd baseSuffix <$> seq 1 999) →
        Sprintf_go baseFileName s ∈ existingFiles) →
  exhausted baseFileName existingFiles usedNames baseSuffix = true.
Proof.
  intros Htaken. unfold exhausted.
  apply andb_true_intro; split; [apply andb_true_intro; split|].
  - rewrite isFree_taken_file; [done|]. apply Htaken, list_elem_of_here.
  - apply forallb_forall. intros s Hs%list_elem_of_In.
    rewrite isFree_taken_file; [done|].
    apply Htaken, list_elem_of_further, elem_of_app. by left.
  - apply forallb_forall. intros s Hs%list_elem_of_In.
    rewrite isFree_taken_file; [done|].
    apply Htaken, list_elem_of_further, elem_of_app. by right.
Qed.

Lemma exhausted_worldFull (usedNames : gset string) :
  exhausted "x" (list_to_set (Sprintf_go "x" <$> takenSuffixes)) usedNames "types"
  = true.
Proof.
  apply exhausted_of_taken. intros s Hs.
  apply elem_of_list_to_set, list_elem_of_fmap_2. exact Hs.
Qed.

Lemma first_suffix_exhausted (w : World) (d : Disk) (inputFile : string)
    (numFiles : nat) (node : File) (st : Run) (out : Outcome) (it : Iter) :
  ParseFile w inputFile = inl node →
  splitGoFile w d inputFile numFiles = (st, out) →
  iters st !! 0 = Some it →
  exhausted (baseFileNameOf w inputFile) (existingFilesOf w inputFile) ∅ "types"
  = true →
  it_suffix it = Sprintf_sd "types" 999.
Proof.
  intros Hparse Hrun Hit Hex.
  rewrite (splitGoFile_first_iteration _ _ _ _ _ _ _ _ Hparse Hrun Hit).
  by apply unique_exhausted.
Qed.

Lemma baseFileNameOf_worldFull : baseFileNameOf worldFull "x.go" = "x".
Proof. vm_compute. reflexivity. Qed.

(** The run on this directory gives its only group the suffix
    [types999], and [x_types999.go] is in the snapshot. *)
Lemma suffix_collision_counterexample :
  ∃ it, iters (splitGoFile worldFull ∅ "x.go" 1).1 !! 0 = Some it
    ∧ it_suffix it = "types999"
    ∧ Sprintf_go (baseFileNameOf worldFull "x.go") (it_suffix it)
      ∈ existingFilesOf worldFull "x.go".
Proof.
  destruct (splitGoFile_enters_loop worldFull ∅ "x.go" 1 file1 fullEntries
              eq_refl ltac:(discriminate) eq_refl ltac:(lia)) as [it Hit].
  exists it. split; [exact Hit|].
  assert (it_suffix it = Sprintf_sd "types" 999) as Hsuffix.
  { apply (first_suffix_exhausted worldFull ∅ "x.go" 1 file1 _ _ it eq_refl
             (surjective_pairing _) Hit).
    rewrite existingFilesOf_worldFull, baseFileNameOf_worldFull.
    apply exhausted_worldFull. }
  rewrite Hsuffix, existingFilesOf_worldFull, baseFileNameOf_worldFull.
  split; [vm_compute; reflexivity|].
  apply elem_of_list_to_set, list_elem_of_fmap_2.
  unfold takenSuffixes. apply list_elem_of_further, elem_of_app. right.
  apply list_elem_of_fmap_2, elem_of_seq. lia.
Qed.

(** C6, as the code has it.  For the group that gets the type
    declarations the base suffix is [types] whatever its functions are,
    and the chosen suffix is [types] exactly when [<base>_types.go] is
    not in the directory snapshot and [types] is not yet used; in a run
    this group is iteration 0, which starts with no used suffix. *)
Theorem types_suffix_iff_free (w : World) (d : Disk) (inputFile : string)
    (numFiles : nat) (node : File) (st : Run) (out : Outcome) (it : Iter) :
  ParseFile w inputFile = inl node →
  splitGoFile w d inputFile numFiles = (st, out) →
  iters st !! 0 = Some it →
  (∀ functions baseFileName existingFiles usedNames,
     generateFilenameSuffix w functions true = "types"
     ∧ (generateUniqueFilenameSuffix w functions true baseFileName existingFiles
          usedNames = "types"
        ↔ isFree baseFileName existingFiles usedNames "types" = true))
  ∧ (it_suffix it = "types"
     ↔ Sprintf_go (baseFileNameOf w inputFile) "types" ∉ existingFilesOf w inputFile).
Proof.
  intros Hparse Hrun Hit.
  assert (∀ functions baseFileName existingFiles usedNames,
     generateUniqueFilenameSuffix w functions true baseFileName existingFiles
       usedNames = "types"
     ↔ isFree baseFileName existingFiles usedNames "types" = true) as Hiff.
  { intros functions baseFileName existingFiles usedNames. split.
    - intros Heq.
      destruct (exhausted baseFileName existingFiles usedNames
                  (generateFilenameSuffix w functions true)) eqn:Hex.
      + rewrite (unique_exhausted _ _ _ _ _ _ Hex) in Heq.
        vm_compute in Heq. discriminate Heq.
      + rewrite <-Heq. by apply unique_free.
    - intros Hfree. by apply unique_base_free. }
  split; [intros; split; [done|apply Hiff]|].
  rewrite (splitGoFile_first_iteration _ _ _ _ _ _ _ _ Hparse Hrun Hit).
  rewrite Hiff, isFree_spec. set_solver.
Qed.

Lemma types_suffix_iff_free_witness :
  it_suffix iterT0 = "types"
  ↔ Sprintf_go (baseFileNameOf worldT "x.go") "types" ∉ existingFilesOf worldT "x.go".
Proof.
  apply (types_suffix_iff_free worldT ∅ "x.go" 2 fileT
           (splitGoFile worldT ∅ "x.go" 2).1
           (splitGoFile worldT ∅ "x.go" 2).2 iterT0);
    [reflexivity|vm_compute; reflexivity|vm_compute; reflexivity].
Defined.

(** C6, as stated, fails: with [x_types.go] already in the directory
    the group with the type declarations is named [core]. *)
Lemma types_suffix_counterexample :
  it_typesForFile <$> iters (splitGoFile worldTypesTaken ∅ "x.go" 2).1
  = [[pointType]; []]
  ∧ it_suffix <$> iters (splitGoFile worldTypesTaken ∅ "x.go" 2).1
    = ["core"; "z"].
Proof. split; vm_compute; reflexivity. Qed.

Lemma find_all_false {A : Type} (f : A → bool) (l : list A) :
  (∀ x, x ∈ l → f x = false) → find f l = None.
Proof.
  intros Hall. apply find_None_forallb, forallb_forall.
  intros x Hx%list_elem_of_In. by rewrite Hall.
Qed.

Lemma existsb_all_false {A : Type} (f : A → bool) (l : list A) :
  (∀ x, x ∈ l → f x = false) → existsb f l = false.
Proof.
  intros Hall. induction l as [|x l IH]; [done|]. simpl.
  rewrite Hall by apply list_elem_of_here. simpl. apply IH.
  intros y Hy. apply Hall. by apply list_elem_of_further.
Qed.

(** C7, as the code has it.  For a group without the type declarations
    in which no keyword occurs in any lower-cased function name, the base
    suffix is the lower-cased first byte of the first function's
    lower-cased name ([funcs] if that name is empty).  It is the suffix
    if it is free; only if it is taken is the suffix the first free
    entry of the alternative list, when there is one. *)
Theorem no_keyword_suffix (w : World) (fn0 : FuncDecl) (rest : list FuncDecl)
    (baseFileName : string) (existingFiles usedNames : gset string) :
  (∀ keyword fn, keyword ∈ keywords → fn ∈ fn0 :: rest →
     Contains (ToLower w (fn_Name fn)) keyword = false) →
  let baseSuffix :=
    match ToLower w (fn_Name fn0) with
    | String c _ => ToLower w (string_of_byte c)
    | EmptyString => "funcs"
    end in
  generateFilenameSuffix w (fn0 :: rest) false = baseSuffix
  ∧ (isFree baseFileName existingFiles usedNames baseSuffix = true →
     generateUniqueFilenameSuffix w (fn0 :: rest) false baseFileName existingFiles
       usedNames = baseSuffix)
  ∧ (isFree baseFileName existingFiles usedNames baseSuffix = false →
     ∀ alt, find (isFree baseFileName existingFiles usedNames) alternatives = Some alt →
     generateUniqueFilenameSuffix w (fn0 :: rest) false baseFileName existingFiles
       usedNames = alt).
Proof.
  intros Hno baseSuffix.
  assert (generateFilenameSuffix w (fn0 :: rest) false = baseSuffix) as Hbase.
  { unfold generateFilenameSuffix. cbn [length fmap list_fmap].
    rewrite !bool_decide_false by done.
    rewrite find_all_false; [done|].
    intros keyword Hkw. apply existsb_all_false.
    intros name Hname. change (ToLower w (fn_Name fn0) :: _)
      with ((λ fn, ToLower w (fn_Name fn)) <$> fn0 :: rest) in Hname.
    apply list_elem_of_fmap in Hname as (fn & -> & Hfn). by apply Hno. }
  split_and!; [done| |].
  - intros Hfree. rewrite <-Hbase in Hfree |- *. by apply unique_base_free.
  - intros Hfree alt Halt. rewrite <-Hbase in Hfree. by apply unique_alternative.
Qed.

Lemma no_keyword_suffix_witness :
  generateFilenameSuffix worldT [sampleFunc "Zed" [Ident "x"]] false = "z"
  ∧ generateUniqueFilenameSuffix worldT [sampleFunc "Zed" [Ident "x"]] false
      "x" ∅ {["types"]} = "z".
Proof.
  destruct (no_keyword_suffix worldT (sampleFunc "Zed" [Ident "x"]) [] "x" ∅
              {["types"]}) as (Hb & Hfree & _).
  - intros keyword fn Hkw%list_elem_of_In Hfn.
    apply list_elem_of_singleton in Hfn as ->.
    apply negb_true_iff. revert keyword Hkw.
    apply (forallb_forall (λ keyword, negb (Contains "zed" keyword))).
    vm_compute. reflexivity.
  - split; [exact Hb|]. apply Hfree. vm_compute. reflexivity.
Defined.

(** C7, as stated, fails: the second group of the run on [fileT] has
    the one function [Zed], no keyword occurs in [zed], and its suffix
    is [z], not the first free alternative [core]. *)
Lemma no_keyword_counterexample :
  it_suffix <$> iters (splitGoFile worldT ∅ "x.go" 2).1 = ["types"; "z"]
  ∧ (λ it, fn_Name <$> it_functions it)
      <$> iters (splitGoFile worldT ∅ "x.go" 2).1
    = [["Quux"]; ["Zed"]]
  ∧ forallb (λ keyword, negb (Contains "zed" keyword)) keywords = true
  ∧ find (isFree "x" ∅ {["types"]}) alternatives = Some "core".
Proof. split_and!; vm_compute; reflexivity. Qed.

(** * Further properties of the program *)

(** ** Early failures *)

(** At a count that is not negative the count as a natural number
    loses nothing. *)
Lemma funcsPerFile_nonneg (len : nat) (numFiles : Z) :
  (0 < numFiles)%Z →
  Z.to_nat
    (if bool_decide (Z.rem (Z.of_nat len) numFiles ≠ 0)%Z
     then (Z.quot (Z.of_nat len) numFiles + 1)%Z
     else Z.quot (Z.of_nat len) numFiles)
  = funcsPerFileOf len (Z.to_nat numFiles).
Proof.
  intros Hpos. unfold funcsPerFileOf.
  rewrite Z.rem_mod_nonneg, Z.quot_div_nonneg by lia.
  assert (Z.of_nat len `div` numFiles
          = Z.of_nat (len / Z.to_nat numFiles))%Z as Hdiv.
  { rewrite Nat2Z.inj_div, Z2Nat.id by lia. done. }
  assert (Z.of_nat len `mod` numFiles
          = Z.of_nat (len mod Z.to_nat numFiles))%Z as Hmod.
  { rewrite Nat2Z.inj_mod, Z2Nat.id by lia. done. }
  rewrite Hdiv, Hmod.
  repeat case_bool_decide; lia.
Qed.

Lemma splitGoFileInt_nonneg (w : World) (d : Disk) (inputFile : string)
    (numFiles : Z) :
  (0 ≤ numFiles)%Z →
  splitGoFileInt w d inputFile numFiles
  = splitGoFile w d inputFile (Z.to_nat numFiles).
Proof.
  intros Hpos. unfold splitGoFileInt, splitGoFile.
  destruct (ParseFile w inputFile) as [node|e]; [|done].
  case_bool_decide; [done|].
  destruct (getExistingFiles w _) as [existing [e|]]; [done|].
  destruct (decide (numFiles = 0)%Z) as [->|Hne].
  - by rewrite !bool_decide_true by done.
  - rewrite (bool_decide_false (numFiles = 0%Z)) by lia.
    rewrite (bool_decide_false (Z.to_nat numFiles = 0)) by lia.
    cbv zeta. by rewrite funcsPerFile_nonneg by lia.
Qed.

(** X1. [main] started with a program name and anything but two
    arguments, with a count that is not an integer, or with a count that
    is not positive exits with status 1 and a message on standard error,
    and leaves the disk as it was: [splitGoFile] is not called.  With an
    empty argument vector it panics on [os.Args[0]] and exits with
    status 2, the disk as it was. *)
Theorem main_rejects_bad_arguments (w : World) (d : Disk) (Args : list string) :
  (length Args ≠ 3
   ∨ ∃ prog inputFile arg2, Args = [prog; inputFile; arg2]
       ∧ ∀ numFiles, Atoi w arg2 = inl numFiles → (numFiles ≤ 0)%Z) →
  (Args ≠ [] → ∃ msg, main w d Args = (initRun d, msg, 1) ∧ msg ≠ "")
  ∧ (Args = [] → ∃ msg, main w d Args = (initRun d, msg, 2) ∧ msg ≠ "").
Proof.
  intros [Hlen|(prog & inputFile & arg2 & -> & Hbad)].
  - destruct Args as [|a [|b [|c [|e Args]]]]; simpl in Hlen; try lia;
      (split; [intros Hne|intros Heq]); try done;
      (eexists; split; [reflexivity|done]).
  - split; [intros _|done].
    cbn [main]. destruct (Atoi w arg2) as [numFiles|e].
    + rewrite bool_decide_true by by apply Hbad.
      by eexists.
    + by eexists.
Qed.

Lemma main_rejects_bad_arguments_witness :
  (∃ msg, main world7 ∅ ["split"; "x.go"] = (initRun ∅, msg, 1) ∧ msg ≠ "")
  ∧ (main world7 ∅ ["split"; "x.go"; "abc"]).2 = 1
  ∧ (main world7 ∅ []).2 = 2.
Proof.
  split_and!.
  - apply (main_rejects_bad_arguments world7 ∅ ["split"; "x.go"]);
      [left; simpl; lia|done].
  - destruct (main_rejects_bad_arguments world7 ∅ ["split"; "x.go"; "abc"])
      as [H _].
    + right. exists "split", "x.go", "abc". split; [done|].
      intros numFiles. vm_compute. done.
    + destruct (H ltac:(done)) as (msg & -> & _). done.
  - destruct (main_rejects_bad_arguments world7 ∅ []) as [_ H].
    + left. simpl. lia.
    + destruct (H eq_refl) as (msg & -> & _). done.
Defined.

(** X2. [main] with two arguments and a positive count never panics:
    it ends as [splitGoFile] does on that count, with status 0 and
    nothing on standard error if [splitGoFile] returns nil, and with
    status 1 and the error after [Error: ] otherwise. *)
Theorem main_positive_count (w : World) (d : Disk) (prog inputFile arg2 : string)
    (numFiles : Z) :
  Atoi w arg2 = inl numFiles →
  (0 < numFiles)%Z →
  ∃ st err,
    splitGoFile w d inputFile (Z.to_nat numFiles) = (st, Return err)
    ∧ main w d [prog; inputFile; arg2]
      = (st,
         match err with
         | None => ""
         | Some e => "Error: " +:+ e +:+ newline
         end,
         match err with None => 0 | Some _ => 1 end).
Proof.
  intros Hatoi Hpos. cbn [main]. rewrite Hatoi.
  rewrite bool_decide_false by lia.
  rewrite splitGoFileInt_nonneg by lia.
  destruct (splitGoFile w d inputFile (Z.to_nat numFiles)) as [st out] eqn:Hrun.
  assert (∃ err, out = Return err) as [err ->].
  { revert Hrun. unfold splitGoFile.
    destruct (ParseFile w inputFile) as [node|e]; [|intros [= <- <-]; eauto].
    case_bool_decide; [intros [= <- <-]; eauto|].
    destruct (getExistingFiles w _) as [existing [e|]]; [intros [= <- <-]; eauto|].
    rewrite bool_decide_false by lia.
    destruct (splitLoop _ _ _ _ _ _ _ _ _ _ _ _) as [st1 err].
    intros [= <- <-]; eauto. }
  exists st, err. split; [done|]. by destruct err.
Qed.

Lemma main_positive_count_witness :
  (main (worldAtoi file7) ∅ ["split"; "x.go"; "3"]).2 = 0.
Proof.
  destruct (main_positive_count (worldAtoi file7) ∅ "split" "x.go" "3" 3
              eq_refl ltac:(lia)) as (st & err & Hrun & Hmain).
  rewrite Hmain. cbn [snd].
  assert (err = None) as ->; [|done].
  vm_compute in Hrun. by injection Hrun as _ <-.
Defined.

(** A negative count reaches the loop, which does nothing. *)
Lemma splitGoFileInt_negative (w : World) (d : Disk) (inputFile : string)
    (numFiles : Z) (node : File) (entries : list DirEntry) :
  (numFiles < 0)%Z →
  ParseFile w inputFile = inl node →
  extractFunctions node ≠ [] →
  ReadDir w (filepath_Dir w inputFile) = inl entries →
  splitGoFileInt w d inputFile numFiles = (initRun d, Return None).
Proof.
  intros Hneg Hparse Hfun Hdir. unfold splitGoFileInt, getExistingFiles.
  rewrite Hparse, Hdir.
  rewrite bool_decide_false by by destruct (extractFunctions node).
  rewrite bool_decide_false by lia.
  by replace (Z.to_nat numFiles) with 0 by lia.
Qed.

(** X3. A run of [splitGoFile], at any count of Go's [int], does no
    iteration exactly when the input cannot be parsed, has no function
    declaration, its directory cannot be listed, or the count is not
    positive; and then the disk, the output and [usedNames] are as at
    the start.  Of these a negative count alone ends with nil: the input
    is parsed, has functions, its directory is listed, and nothing is
    written. *)
Theorem no_iteration_iff (w : World) (d : Disk) (inputFile : string)
    (numFiles : Z) :
  (iters (splitGoFileInt w d inputFile numFiles).1 = []
   ↔ match ParseFile w inputFile with
     | inr _ => True
     | inl node =>
         extractFunctions node = []
         ∨ (∃ err, ReadDir w (filepath_Dir w inputFile) = inr err)
         ∨ (numFiles ≤ 0)%Z
     end)
  ∧ (iters (splitGoFileInt w d inputFile numFiles).1 = [] →
     (splitGoFileInt w d inputFile numFiles).1 = initRun d)
  ∧ ((splitGoFileInt w d inputFile numFiles).2 = Return None
     ∧ iters (splitGoFileInt w d inputFile numFiles).1 = []
     ↔ (numFiles < 0)%Z
       ∧ ∃ node entries,
           ParseFile w inputFile = inl node
           ∧ extractFunctions node ≠ []
           ∧ ReadDir w (filepath_Dir w inputFile) = inl entries)
  ∧ ((0 ≤ numFiles)%Z →
     splitGoFileInt w d inputFile numFiles
     = splitGoFile w d inputFile (Z.to_nat numFiles)).
Proof.
  assert (match ParseFile w inputFile with
          | inr _ => True
          | inl node =>
              extractFunctions node = []
              ∨ (∃ err, ReadDir w (filepath_Dir w inputFile) = inr err)
              ∨ (numFiles ≤ 0)%Z
          end →
          (splitGoFileInt w d inputFile numFiles).1 = initRun d
          ∧ ((splitGoFileInt w d inputFile numFiles).2 = Return None →
             (numFiles < 0)%Z
             ∧ ∃ node entries,
                 ParseFile w inputFile = inl node
                 ∧ extractFunctions node ≠ []
                 ∧ ReadDir w (filepath_Dir w inputFile) = inl entries))
    as Hearly.
  { unfold splitGoFileInt, getExistingFiles.
    destruct (ParseFile w inputFile) as [node|e] eqn:Hparse; [|done].
    destruct (extractFunctions node) as [|fn fns] eqn:Hfun; [done|].
    rewrite bool_decide_false by done.
    destruct (ReadDir w (filepath_Dir w inputFile)) as [entries|err] eqn:Hdir;
      [|done].
    intros [?|[[err ?]|Hle]]; [done..|].
    case_bool_decide as Hz; [done|].
    replace (Z.to_nat numFiles) with 0 by lia. cbn [splitLoop fst snd].
    split; [done|]. intros _. split; [lia|]. exists node, entries.
    by rewrite Hfun. }
  assert (iters (splitGoFileInt w d inputFile numFiles).1 = [] →
          match ParseFile w inputFile with
          | inr _ => True
          | inl node =>
              extractFunctions node = []
              ∨ (∃ err, ReadDir w (filepath_Dir w inputFile) = inr err)
              ∨ (numFiles ≤ 0)%Z
          end) as Hconv.
  { intros Hnil.
    destruct (ParseFile w inputFile) as [node|e] eqn:Hparse; [|done].
    destruct (extractFunctions node) as [|fn fns] eqn:Hfun; [by left|].
    destruct (ReadDir w (filepath_Dir w inputFile)) as [entries|err] eqn:Hdir;
      [|right; left; by eexists].
    destruct (decide (numFiles ≤ 0)%Z) as [|Hpos]; [by do 2 right|].
    rewrite splitGoFileInt_nonneg in Hnil by lia.
    destruct (splitGoFile_enters_loop w d inputFile (Z.to_nat numFiles) node
                entries Hparse) as [it Hit]; [by rewrite Hfun|done|lia|].
    by rewrite Hnil in Hit. }
  split_and!.
  - split; [exact Hconv|]. intros H. destruct (Hearly H) as [-> _]. done.
  - intros H. by apply Hearly, Hconv.
  - split.
    + intros [Hret H]. by apply Hearly; [apply Hconv|].
    + intros (Hneg & node & entries & Hparse & Hfun & Hdir).
      by rewrite (splitGoFileInt_negative w d inputFile numFiles node entries
                    Hneg Hparse Hfun Hdir).
  - apply splitGoFileInt_nonneg.
Qed.

(** ** The directory snapshot *)

Lemma rev_String (c : ascii) (s : string) :
  String.rev (String c s) = String.rev s +:+ String c "".
Proof. apply (rev_append (String c "") s). Qed.

Lemma append_nil_r (s : string) : s +:+ "" = s.
Proof.
  induction s as [|c s IH]; [done|].
  change (String c (s +:+ "") = String c s). by rewrite IH.
Qed.

Lemma rev_involutive (s : string) : String.rev (String.rev s) = s.
Proof.
  induction s as [|c s IH]; [done|].
  by rewrite rev_String, rev_append, IH.
Qed.

Lemma prefix_spec (p s : string) :
  String.prefix p s = true ↔ ∃ t, s = p +:+ t.
Proof.
  revert s. induction p as [|c p IH]; intros s.
  - split; [intros _; by exists s|]. intros _. by destruct s.
  - destruct s as [|c' s]; simpl.
    + split; [done|]. by intros [t Ht].
    + destruct (ascii_dec c c') as [->|Hne].
      * rewrite IH. split; intros [t Ht]; exists t.
        -- by rewrite Ht.
        -- change (String c' s = String c' (p +:+ t)) in Ht. by injection Ht.
      * split; [done|]. intros [t Ht].
        change (String c' s = String c (p +:+ t)) in Ht. by injection Ht.
Qed.

(** [HasSuffix s suffix] says that [s] ends with [suffix]. *)
Lemma HasSuffix_spec (s suffix : string) :
  HasSuffix s suffix = true ↔ ∃ p, s = p +:+ suffix.
Proof.
  unfold HasSuffix. rewrite prefix_spec. split.
  - intros [t Ht]. exists (String.rev t).
    rewrite <-(rev_involutive s), Ht, rev_append. by rewrite rev_involutive.
  - intros [p ->]. exists (String.rev p). apply rev_append.
Qed.

(** X4. [getExistingFiles] fails exactly when the directory cannot be
    listed; otherwise its map holds a name exactly when the listing has
    an entry of that name that is not a directory and the name ends
    with [.go]. *)
Theorem snapshot_membership (w : World) (dir : string) :
  match ReadDir w dir with
  | inr err => getExistingFiles w dir = (∅, Some err)
  | inl entries =>
      (getExistingFiles w dir).2 = None
      ∧ ∀ name, name ∈ (getExistingFiles w dir).1
          ↔ (∃ p, name = p +:+ ".go")
            ∧ {| entry_Name := name; entry_IsDir := false |} ∈ entries
  end.
Proof.
  destruct (ReadDir w dir) as [entries|err] eqn:Hdir.
  2:{ unfold getExistingFiles. by rewrite Hdir. }
  rewrite (getExistingFiles_spec _ _ _ Hdir). split; [done|].
  intros name. cbn [fst]. rewrite elem_of_list_to_set, list_elem_of_fmap.
  rewrite <-HasSuffix_spec. split.
  - intros ([n isDir] & -> & [He Hin]%list_elem_of_filter).
    cbn [entry_IsDir entry_Name] in *.
    apply andb_true_iff in He as [Hd Hs]. destruct isDir; [done|]. done.
  - intros [Hs Hin]. eexists. split; [|apply list_elem_of_filter; split; [|exact Hin]].
    + done.
    + cbn [entry_IsDir entry_Name negb andb]. exact Hs.
Qed.

(** ** Assembled files *)

(** X5. The file [writeGoFile] assembles has the package name it was
    given and, read back by the three extractors, exactly the imports,
    type declarations and functions it was given; without imports it has
    no import declaration at all. *)
Theorem assembled_file_round_trip (packageName : string) (imports : list ImportSpec)
    (typeDecls : list GenDecl) (functions : list FuncDecl) :
  Forall (λ g, Tok g = TYPE) typeDecls →
  let file := assembleFile packageName imports typeDecls functions in
  file_Name file = packageName
  ∧ extractImports file = imports
  ∧ extractTypeDecls file = typeDecls
  ∧ extractFunctions file = functions
  ∧ (imports = [] →
     file_Decls file = (DeclGen <$> typeDecls) ++ (DeclFunc <$> functions)).
Proof.
  intros Hty file. split_and!.
  - done.
  - by apply extractImports_assembleFile.
  - by apply extractTypeDecls_assembleFile.
  - apply extractFunctions_assembleFile.
  - intros ->. done.
Qed.

Lemma assembled_file_round_trip_witness :
  extractImports (assembleFile "main" [fmtImport] [pointType] [sampleFunc "F" []])
  = [fmtImport].
Proof.
  apply (assembled_file_round_trip "main" [fmtImport] [pointType]
           [sampleFunc "F" []]).
  repeat constructor.
Defined.

(** ** Iterations of a run *)

(** Every iteration of a run is the loop body at its index, entered
    with a positive count and a start inside the function list. *)
Lemma run_iteration_at (w : World) (d : Disk) (inputFile : string)
    (numFiles : nat) (node : File) (st : Run) (out : Outcome) (k : nat) (it : Iter) :
  ParseFile w inputFile = inl node →
  splitGoFile w d inputFile numFiles = (st, out) →
  iters st !! k = Some it →
  0 < numFiles
  ∧ k * funcsPerFileOf (length (extractFunctions node)) numFiles
    < length (extractFunctions node)
  ∧ it = iterAt w (extractImports node) (extractTypeDecls node)
           (extractFunctions node) (baseFileNameOf w inputFile)
           (filepath_Dir w inputFile) (existingFilesOf w inputFile)
           (funcsPerFileOf (length (extractFunctions node)) numFiles) k
           (list_to_set (it_suffix <$> take k (iters st))).
Proof.
  intros Hparse Hrun Hk.
  destruct (splitGoFile_plan _ _ _ _ _ _ _ Hparse Hrun) as (m & _ & Hplan & _ & Hlt).
  split_and!.
  - destruct (splitGoFile_cases _ _ _ _ _ _ _ Hparse Hrun)
      as [[-> _]|(_ & HN & _)]; [done|exact HN].
  - apply Hlt. apply lookup_lt_Some in Hk.
    rewrite Hplan in Hk. unfold planOf in Hk. by rewrite length_plan in Hk.
  - pose proof Hk as Hk'. rewrite Hplan in Hk'. unfold planOf in Hk'.
    apply plan_lookup in Hk'. cbn [Nat.add] in Hk'.
    fold (planOf w node inputFile numFiles m) in Hk'. rewrite <-Hplan in Hk'.
    by rewrite (right_id_L ∅ (∪)) in Hk'.
Qed.

Lemma run_iteration_types (w : World) (d : Disk) (inputFile : string)
    (numFiles : nat) (node : File) (st : Run) (out : Outcome) (k : nat) (it : Iter) :
  ParseFile w inputFile = inl node →
  splitGoFile w d inputFile numFiles = (st, out) →
  iters st !! k = Some it →
  Forall (λ g, Tok g = TYPE) (it_typesForFile it)
  ∧ it_functions it ⊆ extractFunctions node.
Proof.
  intros Hparse Hrun Hk.
  destruct (run_iteration_at _ _ _ _ _ _ _ _ _ Hparse Hrun Hk) as (_ & _ & ->).
  rewrite iterAt_typesForFile, iterAt_functions. split.
  - case_bool_decide; [apply extractTypeDecls_TYPE|constructor].
  - etrans; [apply subseteq_take|apply subseteq_drop].
Qed.

(** X6. No output file of any run holds a declaration other than one
    import declaration, type declarations and functions: the [var] and
    [const] declarations of the input are in none of the files. *)
Theorem outputs_hold_no_var_or_const (w : World) (d : Disk) (inputFile : string)
    (numFiles : nat) (node : File) (st : Run) (out : Outcome)
    (it : Iter) (decl : Decl) :
  ParseFile w inputFile = inl node →
  splitGoFile w d inputFile numFiles = (st, out) →
  it ∈ iters st →
  decl ∈ file_Decls (it_file (file_Name node) it) →
  match decl with
  | DeclGen g => Tok g = IMPORT ∨ Tok g = TYPE
  | DeclFunc fn => fn ∈ extractFunctions node
  | DeclBad => False
  end.
Proof.
  intros Hparse Hrun Hit Hdecl.
  apply list_elem_of_lookup in Hit as [k Hk].
  destruct (run_iteration_types w d inputFile numFiles node st out k it
              Hparse Hrun Hk) as (Hty & Hfun).
  unfold it_file, assembleFile in Hdecl. cbn [file_Decls] in Hdecl.
  rewrite !elem_of_app in Hdecl. destruct Hdecl as [Hd|[Hd|Hd]].
  - case_bool_decide; [|by apply not_elem_of_nil in Hd].
    apply list_elem_of_singleton in Hd as ->. by left.
  - apply list_elem_of_fmap in Hd as (g & -> & Hg). right.
    rewrite Forall_forall in Hty. by apply Hty.
  - apply list_elem_of_fmap in Hd as (fn & -> & Hfn). by apply Hfun.
Qed.

Lemma outputs_hold_no_var_or_const_witness :
  DeclGen pointType ∈ file_Decls (it_file "main" iterT0)
  ∧ (Tok pointType = IMPORT ∨ Tok pointType = TYPE).
Proof.
  assert (DeclGen pointType ∈ file_Decls (it_file "main" iterT0)) as Hin.
  { apply (list_elem_of_lookup_2 _ 1). vm_compute. reflexivity. }
  split; [exact Hin|].
  apply (outputs_hold_no_var_or_const worldT ∅ "x.go" 2 fileT
           (splitGoFile worldT ∅ "x.go" 2).1 (splitGoFile worldT ∅ "x.go" 2).2
           iterT0 (DeclGen pointType)); [reflexivity|vm_compute; reflexivity| |exact Hin].
  apply (list_elem_of_lookup_2 _ 0). vm_compute. reflexivity.
Defined.

(** X7. In every iteration of every run the slice expression
    [functions[start:end]] is in range: [start] is the index times
    [funcsPerFile], [end] is [start + funcsPerFile] cut at the length,
    [start < end <= len(functions)], and no value computed exceeds three
    times the length, so no [int] overflows. *)
Theorem iteration_slice_in_range (w : World) (d : Disk) (inputFile : string)
    (numFiles : nat) (node : File) (st : Run) (out : Outcome) (k : nat) (it : Iter) :
  ParseFile w inputFile = inl node →
  splitGoFile w d inputFile numFiles = (st, out) →
  iters st !! k = Some it →
  let len := length (extractFunctions node) in
  let funcsPerFile := funcsPerFileOf len numFiles in
  it_start it = k * funcsPerFile
  ∧ it_end it = (it_start it + funcsPerFile) `min` len
  ∧ it_start it < it_end it ∧ it_end it ≤ len
  ∧ it_functions it = slice (extractFunctions node) (it_start it) (it_end it)
  ∧ length (it_functions it) = it_end it - it_start it
  ∧ it_start it + funcsPerFile ≤ 3 * len.
Proof.
  intros Hparse Hrun Hk len funcsPerFile.
  destruct (run_iteration_at _ _ _ _ _ _ _ _ _ Hparse Hrun Hk) as (HN & Hlt & ->).
  fold len funcsPerFile in Hlt |- *.
  assert (0 < len) as Hlen by lia.
  destruct (funcsPerFileOf_bounds len numFiles HN Hlen) as [[Hc1 Hc2] _].
  fold funcsPerFile in Hc1, Hc2.
  unfold iterAt. cbn [it_start it_end it_functions].
  fold len funcsPerFile.
  assert ((if bool_decide (len < k * funcsPerFile + funcsPerFile)
           then len else k * funcsPerFile + funcsPerFile)
          = (k * funcsPerFile + funcsPerFile) `min` len) as ->.
  { case_bool_decide; lia. }
  split_and!; [done|done|lia|lia|done| |nia].
  unfold slice. rewrite length_take, length_drop. fold len. lia.
Qed.

Lemma iteration_slice_in_range_witness :
  it_start iter7bad = 3 ∧ it_end iter7bad = 6.
Proof.
  destruct (iteration_slice_in_range world7bad ∅ "x.go" 3 file7
              (splitGoFile world7bad ∅ "x.go" 3).1
              (splitGoFile world7bad ∅ "x.go" 3).2 1 iter7bad eq_refl
              ltac:(vm_compute; reflexivity) ltac:(vm_compute; reflexivity))
    as (Hs & He & _).
  split; [exact Hs|]. rewrite He, Hs. reflexivity.
Defined.

(** ** The disk and the output of a run *)

Section DiskFacts.
Context (w : World) (packageName : string).

Local Abbreviation wErr := (writeErr w packageName).
Local Abbreviation wDisk := (writeDisk w packageName).

Lemma foldl_writeDisk_frame (d : Disk) (its : list Iter) (p : string) :
  p ∉ it_outputFile <$> its → foldl wDisk d its !! p = d !! p.
Proof.
  revert d. induction its as [|it its IH]; intros d Hp; [done|].
  rewrite fmap_cons, not_elem_of_cons in Hp. destruct Hp as [Hne Hp].
  cbn [foldl]. rewrite IH by done. by apply writeDisk_lookup_ne.
Qed.

(** A path holds the text of the last iteration that wrote to it, if
    that write succeeded. *)
Lemma foldl_writeDisk_last_writer (d : Disk) (its : list Iter) (j : nat) (it : Iter) :
  its !! j = Some it →
  wErr it = None →
  (∀ j' it', j < j' → its !! j' = Some it' →
     it_outputFile it' ≠ it_outputFile it) →
  foldl wDisk d its !! it_outputFile it
  = Some (format_Node w (it_file packageName it)).1.
Proof.
  revert j. induction its as [|last its IH] using rev_ind; intros j Hj Hok Hlater.
  { done. }
  rewrite foldl_snoc.
  destruct (decide (j = length its)) as [->|Hne].
  - rewrite lookup_app_r, Nat.sub_diag in Hj by lia. injection Hj as ->.
    by apply writeDisk_lookup_ok.
  - assert (j < length its) as Hlt.
    { apply lookup_lt_Some in Hj. rewrite length_app in Hj. simpl in Hj. lia. }
    rewrite lookup_app_l in Hj by done.
    rewrite writeDisk_lookup_ne.
    + apply (IH j); [done|done|].
      intros j' it' Hjj' Hj'. apply (Hlater j'); [done|].
      rewrite lookup_app_l; [done|]. by apply lookup_lt_Some in Hj'.
    + intros Heq. apply (Hlater (length its) last); [done| |done].
      by rewrite lookup_app_r, Nat.sub_diag by lia.
Qed.
End DiskFacts.

(** The disk and the output after any run, from its iterations. *)
Lemma run_disk_stdout (w : World) (d : Disk) (inputFile : string)
    (numFiles : nat) (node : File) (st : Run) (out : Outcome) :
  ParseFile w inputFile = inl node →
  splitGoFile w d inputFile numFiles = (st, out) →
  disk st = foldl (writeDisk w (file_Name node)) d (iters st)
  ∧ stdout st
    = created <$> filter (λ it, writeErr w (file_Name node) it = None) (iters st).
Proof.
  intros Hparse Hrun.
  destruct (splitGoFile_cases _ _ _ _ _ _ _ Hparse Hrun)
    as [[-> _]|(_ & _ & e & -> & Hloop)]; [done|].
  apply splitLoop_spec in Hloop as (m & _ & Hit & _ & _ & Herr).
  cbn [initRun iters usedNames app disk stdout] in Hit, Herr.
  destruct e as [e|].
  - destruct Herr as (done & last & err0 & Hplan & Hok & Hlast & _ & Hd & Hout).
    rewrite Hit, Hplan, foldl_snoc, filter_app, filter_cons, filter_nil.
    rewrite decide_False by congruence. rewrite app_nil_r.
    split; [done|]. rewrite Hout. f_equal.
    clear -Hok. induction Hok as [|it its Hit _ IH]; [done|].
    rewrite filter_cons, decide_True by done. by rewrite <-IH.
  - destruct Herr as (Hok & Hd & Hout & _). rewrite <-Hit in Hok, Hd, Hout.
    split; [done|]. rewrite Hout. f_equal.
    clear -Hok. induction Hok as [|it its Hit _ IH]; [done|].
    rewrite filter_cons, decide_True by done. by rewrite <-IH.
Qed.

(** X8. A run changes the disk only at the paths of its output files:
    every other path, the input file among them unless it is an output
    path, holds what it held before.  An output path holds what the
    printer wrote for the last iteration that used it, if that
    iteration's write returned no error. *)
Theorem run_disk_frame (w : World) (d : Disk) (inputFile : string)
    (numFiles : nat) (node : File) (st : Run) (out : Outcome) :
  ParseFile w inputFile = inl node →
  splitGoFile w d inputFile numFiles = (st, out) →
  (∀ p, p ∉ it_outputFile <$> iters st → disk st !! p = d !! p)
  ∧ (∀ j it, iters st !! j = Some it →
       writeErr w (file_Name node) it = None →
       (∀ j' it', j < j' → iters st !! j' = Some it' →
          it_outputFile it' ≠ it_outputFile it) →
       disk st !! it_outputFile it
       = Some (format_Node w (it_file (file_Name node) it)).1).
Proof.
  intros Hparse Hrun.
  destruct (run_disk_stdout _ _ _ _ _ _ _ Hparse Hrun) as [Hd _].
  rewrite Hd. split.
  - intros p Hp. by apply foldl_writeDisk_frame.
  - intros j it Hj Hok Hlater. by apply (foldl_writeDisk_last_writer _ _ _ _ j).
Qed.

Lemma run_disk_frame_witness :
  it_outputFile <$> iters (splitGoFile world7 ∅ "x.go" 3).1
  = ["./x_types.go"; "./x_load.go"; "./x_v.go"]
  ∧ disk (splitGoFile world7 ∅ "x.go" 3).1 !! "./x.go" = (∅ : Disk) !! "./x.go".
Proof.
  split; [vm_compute; reflexivity|].
  apply (run_disk_frame world7 ∅ "x.go" 3 file7
           (splitGoFile world7 ∅ "x.go" 3).1 (splitGoFile world7 ∅ "x.go" 3).2);
    [reflexivity|vm_compute; reflexivity|].
  apply (bool_decide_eq_true_1 _). vm_compute. reflexivity.
Defined.

(** X9. The lines on standard output of any run are the [Created: ]
    lines of the iterations whose [writeGoFile] returned no error, in
    order, one per written file. *)
Theorem stdout_lists_written_files (w : World) (d : Disk) (inputFile : string)
    (numFiles : nat) (node : File) (st : Run) (out : Outcome) :
  ParseFile w inputFile = inl node →
  splitGoFile w d inputFile numFiles = (st, out) →
  stdout st
  = (λ it, "Created: " +:+ it_outputFile it +:+ newline)
    <$> filter (λ it, writeErr w (file_Name node) it = None) (iters st).
Proof.
  intros Hparse Hrun.
  by destruct (run_disk_stdout _ _ _ _ _ _ _ Hparse Hrun) as [_ ->].
Qed.

Lemma stdout_lists_written_files_witness :
  stdout (splitGoFile world7bad ∅ "x.go" 3).1
  = ["Created: ./x_types.go" +:+ newline].
Proof.
  rewrite (stdout_lists_written_files world7bad ∅ "x.go" 3 file7
             (splitGoFile world7bad ∅ "x.go" 3).1
             (splitGoFile world7bad ∅ "x.go" 3).2 eq_refl
             ltac:(vm_compute; reflexivity)).
  vm_compute. reflexivity.
Defined.

(** ** The keyword scan *)

Lemma find_app_first {A : Type} (f : A → bool) (pre post : list A) (x : A) :
  (∀ y, y ∈ pre → f y = false) → f x = true →
  find f (pre ++ x :: post) = Some x.
Proof.
  intros Hpre Hx. induction pre as [|y pre IH]; simpl.
  - by rewrite Hx.
  - rewrite Hpre by apply list_elem_of_here.
    apply IH. intros z Hz. apply Hpre. by apply list_elem_of_further.
Qed.

Lemma existsb_elem_of {A : Type} (f : A → bool) (l : list A) :
  existsb f l = true ↔ ∃ x, x ∈ l ∧ f x = true.
Proof.
  rewrite existsb_exists. split; intros (x & Hx & Hf); exists x;
    (split; [by apply list_elem_of_In|done]).
Qed.

Lemma find_ext_eq {A : Type} (f g : A → bool) (l : list A) :
  (∀ x, f x = g x) → find f l = find g l.
Proof. intros Hext. induction l as [|x l IH]; [done|]. simpl. by rewrite Hext, IH. Qed.

(** The test of the keyword loop, on a group. *)
Lemma keyword_matches_iff (w : World) (functions : list FuncDecl) (keyword : string) :
  existsb (λ name, Contains name keyword)
    ((λ fn, ToLower w (fn_Name fn)) <$> functions) = true
  ↔ ∃ fn, fn ∈ functions ∧ Contains (ToLower w (fn_Name fn)) keyword = true.
Proof.
  rewrite existsb_elem_of. split.
  - intros (name & (fn & -> & Hfn)%list_elem_of_fmap & Hc). by exists fn.
  - intros (fn & Hfn & Hc). exists (ToLower w (fn_Name fn)).
    split; [|done].
    by apply (list_elem_of_fmap_2 (λ fn, ToLower w (fn_Name fn))).
Qed.

Lemma generateFilenameSuffix_scan (w : World) (functions : list FuncDecl) :
  functions ≠ [] →
  generateFilenameSuffix w functions false
  = match find (λ keyword, existsb (λ name, Contains name keyword)
                  ((λ fn, ToLower w (fn_Name fn)) <$> functions)) keywords with
    | Some keyword => keyword
    | None =>
        match (λ fn, ToLower w (fn_Name fn)) <$> functions with
        | String c _ :: _ => ToLower w (string_of_byte c)
        | _ => "funcs"
        end
    end.
Proof.
  intros Hne. unfold generateFilenameSuffix.
  destruct functions as [|fn functions]; [done|].
  cbn [length fmap list_fmap]. by rewrite !bool_decide_false by done.
Qed.

(** X10. For a group without the type declarations, the suffix is the
    first keyword, in the order of the vocabulary, that occurs in the
    lower-cased name of any function of the group: earlier functions do
    not take precedence over earlier keywords. *)
Theorem first_keyword_in_vocabulary_order (w : World) (functions : list FuncDecl)
    (pre post : list string) (keyword : string) (fn : FuncDecl) :
  keywords = pre ++ keyword :: post →
  (∀ earlier fn', earlier ∈ pre → fn' ∈ functions →
     Contains (ToLower w (fn_Name fn')) earlier = false) →
  fn ∈ functions →
  Contains (ToLower w (fn_Name fn)) keyword = true →
  generateFilenameSuffix w functions false = keyword.
Proof.
  intros Hkw Hpre Hfn Hc.
  rewrite generateFilenameSuffix_scan by (intros ->; by apply not_elem_of_nil in Hfn).
  rewrite Hkw, (find_app_first _ pre post keyword); [done| |].
  - intros earlier He. apply not_true_is_false. intros Ht.
    apply keyword_matches_iff in Ht as (fn' & Hfn' & Hc').
    by rewrite (Hpre earlier fn') in Hc'.
  - apply keyword_matches_iff. by exists fn.
Qed.

Lemma first_keyword_in_vocabulary_order_witness :
  generateFilenameSuffix world7
    [sampleFunc "Quux" []; sampleFunc "LoadIt" []; sampleFunc "GetAll" []] false
  = "load".
Proof.
  apply (first_keyword_in_vocabulary_order world7 _ (take 14 keywords)
           (drop 15 keywords) "load" (sampleFunc "LoadIt" [])).
  - vm_compute. reflexivity.
  - intros earlier fn' He%list_elem_of_In Hfn'%list_elem_of_In.
    apply negb_true_iff. revert fn' Hfn'.
    apply (forallb_forall (λ f, negb (Contains (ToLower world7 (fn_Name f)) earlier))).
    revert earlier He.
    apply (forallb_forall (λ e, forallb (λ f,
             negb (Contains (ToLower world7 (fn_Name f)) e))
             [sampleFunc "Quux" []; sampleFunc "LoadIt" []; sampleFunc "GetAll" []])).
    vm_compute. reflexivity.
  - apply list_elem_of_further, list_elem_of_here.
  - vm_compute. reflexivity.
Defined.

(** X11. When some keyword occurs in some function name of the group,
    the suffix does not depend on the order of the functions in the
    group. *)
Theorem keyword_suffix_order_independent (w : World) (functions functions' :
    list FuncDecl) (keyword : string) (fn : FuncDecl) :
  functions ≡ₚ functions' →
  keyword ∈ keywords → fn ∈ functions →
  Contains (ToLower w (fn_Name fn)) keyword = true →
  generateFilenameSuffix w functions false
  = generateFilenameSuffix w functions' false.
Proof.
  intros Hperm Hkw Hfn Hc.
  assert (fn ∈ functions') as Hfn' by by rewrite <-Hperm.
  rewrite (generateFilenameSuffix_scan w functions)
    by (intros ->; by apply not_elem_of_nil in Hfn).
  rewrite (generateFilenameSuffix_scan w functions')
    by (intros ->; by apply not_elem_of_nil in Hfn').
  assert (∀ k, existsb (λ name, Contains name k)
                 ((λ fn, ToLower w (fn_Name fn)) <$> functions)
               = existsb (λ name, Contains name k)
                   ((λ fn, ToLower w (fn_Name fn)) <$> functions')) as Hext.
  { intros k. apply eq_true_iff_eq. rewrite !keyword_matches_iff.
    by setoid_rewrite Hperm. }
  assert (find (λ k, existsb (λ name, Contains name k)
                  ((λ fn, ToLower w (fn_Name fn)) <$> functions)) keywords
          = find (λ k, existsb (λ name, Contains name k)
                    ((λ fn, ToLower w (fn_Name fn)) <$> functions')) keywords) as Hfind.
  { by apply find_ext_eq. }
  rewrite <-Hfind.
  destruct (find _ keywords) as [k|] eqn:Hk; [done|].
  apply find_None_forallb in Hk. rewrite forallb_forall in Hk.
  apply list_elem_of_In in Hkw. specialize (Hk _ Hkw).
  apply negb_true_iff in Hk.
  assert (existsb (λ name, Contains name keyword)
            ((λ fn, ToLower w (fn_Name fn)) <$> functions) = true) as Ht.
  { apply keyword_matches_iff. by exists fn. }
  congruence.
Qed.

Lemma keyword_suffix_order_independent_witness :
  generateFilenameSuffix world7 [sampleFunc "Quux" []; sampleFunc "LoadIt" []] false
  = generateFilenameSuffix world7 [sampleFunc "LoadIt" []; sampleFunc "Quux" []] false.
Proof.
  apply (keyword_suffix_order_independent world7 _ _ "load" (sampleFunc "LoadIt" [])).
  - apply Permutation_swap.
  - apply (list_elem_of_lookup_2 _ 14). vm_compute. reflexivity.
  - apply list_elem_of_further, list_elem_of_here.
  - vm_compute. reflexivity.
Defined.

(** ** Enough candidates *)

Lemma append_inj_r (s1 s2 t : string) : s1 +:+ t = s2 +:+ t → s1 = s2.
Proof.
  intros Heq. apply (f_equal String.rev) in Heq. rewrite !rev_append in Heq.
  apply String.app_inj in Heq. by rewrite <-(rev_involutive s1), Heq, rev_involutive.
Qed.

Global Instance Sprintf_go_inj (baseFileName : string) :
  Inj (=) (=) (Sprintf_go baseFileName).
Proof.
  intros s1 s2 Heq. unfold Sprintf_go in Heq.
  apply String.app_inj, String.app_inj in Heq. by apply append_inj_r in Heq.
Qed.

Global Instance Sprintf_sd_inj (baseSuffix : string) :
  Inj (=) (=) (Sprintf_sd baseSuffix).
Proof.
  intros i j Heq. unfold Sprintf_sd in Heq.
  apply String.app_inj in Heq. by apply (inj pretty) in Heq.
Qed.

Lemma NoDup_length_le_size (l : list string) (X : gset string) :
  NoDup l → (∀ x, x ∈ l → x ∈ X) → length l ≤ size X.
Proof.
  intros Hnd Hsub. rewrite <-(size_list_to_set (C:=gset string) l) by done.
  apply subseteq_size. intros x Hx. apply Hsub. by apply elem_of_list_to_set in Hx.
Qed.

Lemma length_filter_split {A : Type} (P : A → Prop) `{∀ x, Decision (P x)}
    (l : list A) :
  length (filter P l) + length (filter (λ x, ¬ P x) l) = length l.
Proof.
  induction l as [|x l IH]; [done|]. rewrite !filter_cons.
  destruct (decide (P x)).
  - rewrite decide_False by tauto. simpl. lia.
  - rewrite decide_True by done. simpl. lia.
Qed.

Lemma size_list_to_set_le (l : list string) :
  size (list_to_set (C:=gset string) l) ≤ length l.
Proof.
  induction l as [|x l IH].
  { rewrite list_to_set_nil, size_empty. done. }
  rewrite list_to_set_cons, size_union_alt, size_singleton. cbn [length].
  pose proof (subseteq_size (list_to_set l ∖ {[x]}) (list_to_set (C:=gset string) l)
                ltac:(set_solver)). lia.
Qed.

(** Not all candidates can be taken by fewer than 999 names. *)
Lemma not_exhausted_of_size (baseFileName : string) (existingFiles usedNames :
    gset string) (baseSuffix : string) :
  size existingFiles + size usedNames < 999 →
  exhausted baseFileName existingFiles usedNames baseSuffix = false.
Proof.
  intros Hsize. apply not_true_is_false. intros Hex.
  unfold exhausted in Hex. apply andb_true_iff in Hex as [_ Hnum].
  rewrite forallb_forall in Hnum.
  set (numbered := Sprintf_sd baseSuffix <$> seq 1 999) in *.
  assert (NoDup numbered) as Hnd.
  { apply (NoDup_fmap_2 (Sprintf_sd baseSuffix)), NoDup_seq. }
  assert (length numbered = 999) as Hlen.
  { unfold numbered. by rewrite length_fmap, length_seq. }
  pose proof (length_filter_split (λ s, s ∈ usedNames) numbered) as Hsplit.
  assert (length (filter (λ s, s ∈ usedNames) numbered) ≤ size usedNames) as H1.
  { apply NoDup_length_le_size; [by apply NoDup_filter|].
    by intros x [Hx _]%list_elem_of_filter. }
  assert (length (filter (λ s, s ∉ usedNames) numbered) ≤ size existingFiles) as H2.
  { rewrite <-(length_fmap (Sprintf_go baseFileName)).
    apply NoDup_length_le_size.
    - apply (NoDup_fmap_2 (Sprintf_go baseFileName)). by apply NoDup_filter.
    - intros file (s & -> & [Hs Hin]%list_elem_of_filter)%list_elem_of_fmap.
      apply list_elem_of_In, Hnum, negb_true_iff in Hin.
      destruct (decide (Sprintf_go baseFileName s ∈ existingFiles)) as [|Hfile];
        [done|].
      assert (isFree baseFileName existingFiles usedNames s = true) as Hfree
        by by apply isFree_spec.
      congruence. }
  lia.
Qed.

(** X12. If the directory snapshot and the used suffixes together
    have fewer than 999 names, [generateUniqueFilenameSuffix] returns a
    suffix that is not used and whose file name is not in the snapshot,
    and it returns the base suffix itself whenever that one is free. *)
Theorem unique_suffix_free_below_999 (w : World) (functions : list FuncDecl)
    (hasTypes : bool) (baseFileName : string)
    (existingFiles usedNames : gset string) :
  size existingFiles + size usedNames < 999 →
  let suffix :=
    generateUniqueFilenameSuffix w functions hasTypes baseFileName existingFiles
      usedNames in
  (suffix ∉ usedNames)
  ∧ (Sprintf_go baseFileName suffix ∉ existingFiles)
  ∧ (isFree baseFileName existingFiles usedNames
       (generateFilenameSuffix w functions hasTypes) = true →
     suffix = generateFilenameSuffix w functions hasTypes).
Proof.
  intros Hsize suffix.
  pose proof (unique_free w functions hasTypes baseFileName existingFiles usedNames
                (not_exhausted_of_size _ _ _ _ Hsize)) as Hfree.
  apply isFree_spec in Hfree as [Hfile Hused].
  split_and!; [done|done|]. apply unique_base_free.
Qed.

Lemma unique_suffix_free_below_999_witness :
  generateUniqueFilenameSuffix world7 [sampleFunc "ParseA" []] false "x"
    {["x_parse.go"]} {["core"]} = "main"
  ∧ generateUniqueFilenameSuffix world7 [sampleFunc "ParseA" []] false "x"
      {["x_parse.go"]} {["core"]} ∉ ({["core"]} : gset string).
Proof.
  split; [vm_compute; reflexivity|].
  apply (unique_suffix_free_below_999 world7 [sampleFunc "ParseA" []] false "x"
           {["x_parse.go"]} {["core"]}).
  vm_compute. lia.
Defined.

(** The suffix of an iteration that does not find all candidates taken
    is free with respect to the suffixes chosen before it. *)
Lemma run_suffix_free (w : World) (d : Disk) (inputFile : string)
    (numFiles : nat) (node : File) (st : Run) (out : Outcome) (k : nat) (it : Iter) :
  ParseFile w inputFile = inl node →
  splitGoFile w d inputFile numFiles = (st, out) →
  iters st !! k = Some it →
  size (existingFilesOf w inputFile) + numFiles ≤ 999 →
  isFree (baseFileNameOf w inputFile) (existingFilesOf w inputFile)
    (list_to_set (it_suffix <$> take k (iters st))) (it_suffix it) = true.
Proof.
  intros Hparse Hrun Hk Hsize.
  destruct (run_iteration_at _ _ _ _ _ _ _ _ _ Hparse Hrun Hk) as (_ & _ & Hit).
  destruct (splitGoFile_plan _ _ _ _ _ _ _ Hparse Hrun) as (m & Hm & Hplan & _).
  assert (k < numFiles) as HkN.
  { apply lookup_lt_Some in Hk. rewrite Hplan in Hk. unfold planOf in Hk.
    rewrite length_plan in Hk. lia. }
  rewrite Hit, iterAt_suffix. apply unique_free, not_exhausted_of_size.
  pose proof (size_list_to_set_le (it_suffix <$> take k (iters st))) as Hle.
  rewrite length_fmap, length_take in Hle. lia.
Qed.

(** X13. In a run whose count plus the number of [.go] files in the
    directory snapshot is at most 999, the suffixes of the groups are
    pairwise different, so are the file names built from them, and none
    of these file names is in the snapshot. *)
Theorem run_suffixes_distinct (w : World) (d : Disk) (inputFile : string)
    (numFiles : nat) (node : File) (st : Run) (out : Outcome) :
  ParseFile w inputFile = inl node →
  splitGoFile w d inputFile numFiles = (st, out) →
  size (existingFilesOf w inputFile) + numFiles ≤ 999 →
  NoDup (it_suffix <$> iters st)
  ∧ NoDup (Sprintf_go (baseFileNameOf w inputFile) ∘ it_suffix <$> iters st)
  ∧ (∀ it, it ∈ iters st →
       Sprintf_go (baseFileNameOf w inputFile) (it_suffix it)
       ∉ existingFilesOf w inputFile).
Proof.
  intros Hparse Hrun Hsize.
  assert (NoDup (it_suffix <$> iters st)) as Hnd.
  { apply NoDup_alt. intros i j s Hi Hj.
    assert (∀ i j, i < j → (it_suffix <$> iters st) !! i = Some s →
                   (it_suffix <$> iters st) !! j = Some s → False) as Hlt.
    { clear i j Hi Hj. intros i j Hij Hi Hj.
      apply list_lookup_fmap_Some in Hj as (it & -> & Hj).
      pose proof (run_suffix_free _ _ _ _ _ _ _ _ _ Hparse Hrun Hj Hsize) as Hfree.
      apply isFree_spec in Hfree as [_ Hnew]. apply Hnew.
      apply elem_of_list_to_set. rewrite fmap_take.
      apply list_elem_of_lookup. exists i. rewrite lookup_take_lt by done.
      exact Hi. }
    destruct (Nat.lt_trichotomy i j) as [Hij|[->|Hji]]; [|done|].
    - by destruct (Hlt i j).
    - by destruct (Hlt j i). }
  split_and!; [done| |].
  - rewrite list_fmap_compose. by apply (NoDup_fmap_2 (Sprintf_go _)).
  - intros it [k Hk]%list_elem_of_lookup.
    pose proof (run_suffix_free _ _ _ _ _ _ _ _ _ Hparse Hrun Hk Hsize) as Hfree.
    by apply isFree_spec in Hfree as [Hfile _].
Qed.

Lemma run_suffixes_distinct_witness :
  NoDup (it_suffix <$> iters (splitGoFile world7 ∅ "x.go" 3).1).
Proof.
  apply (run_suffixes_distinct world7 ∅ "x.go" 3 file7
           (splitGoFile world7 ∅ "x.go" 3).1 (splitGoFile world7 ∅ "x.go" 3).2);
    [reflexivity|vm_compute; reflexivity|vm_compute; lia].
Defined.

(** ** Imports over all groups *)

Lemma elem_of_groupIdentifiers (name : string) (functions : list FuncDecl)
    (typeDecls : list GenDecl) :
  name ∈ groupIdentifiers functions typeDecls
  ↔ (∃ fn, fn ∈ functions ∧ name ∈ identifiers (FuncDecl_node fn))
    ∨ (∃ g, g ∈ typeDecls ∧ name ∈ identifiers (GenDecl_node g)).
Proof.
  unfold groupIdentifiers. rewrite elem_of_union, !elem_of_union_list.
  split; (intros [H|H]; [left|right]).
  - destruct H as (X & (fn & -> & Hfn)%list_elem_of_fmap & Hx). by exists fn.
  - destruct H as (X & (g & -> & Hg)%list_elem_of_fmap & Hx). by exists g.
  - destruct H as (fn & Hfn & Hx). exists (identifiers (FuncDecl_node fn)).
    split; [|done]. by apply (list_elem_of_fmap_2 (identifiers ∘ FuncDecl_node)).
  - destruct H as (g & Hg & Hx). exists (identifiers (GenDecl_node g)).
    split; [|done]. by apply (list_elem_of_fmap_2 (identifiers ∘ GenDecl_node)).
Qed.

Lemma elem_of_concat {A : Type} (x : A) (ls : list (list A)) :
  x ∈ concat ls ↔ ∃ l, l ∈ ls ∧ x ∈ l.
Proof.
  rewrite list_elem_of_In, in_concat. split; intros (l & Hl & Hx); exists l;
    by rewrite ?list_elem_of_In in *.
Qed.

Lemma elem_of_analyzeRequiredImports (imp : ImportSpec) (functions : list FuncDecl)
    (typeDecls : list GenDecl) (allImports : list ImportSpec) :
  imp ∈ analyzeRequiredImports functions typeDecls allImports
  ↔ imp ∈ allImports ∧ importName imp ∈ groupIdentifiers functions typeDecls.
Proof. rewrite analyzeRequiredImports_filter, list_elem_of_filter. tauto. Qed.

(** The functions of the iterations of a run that returns no error,
    one list after the other, are the functions of the input. *)
Lemma run_functions_concat (w : World) (d : Disk) (inputFile : string)
    (numFiles : nat) (node : File) (st : Run) :
  ParseFile w inputFile = inl node →
  splitGoFile w d inputFile numFiles = (st, Return None) →
  concat (it_functions <$> iters st) = extractFunctions node.
Proof.
  intros Hparse Hrun.
  destruct (splitGoFile_success _ _ _ _ _ _ Hparse Hrun) as (HN & Hlen & Hit & _).
  rewrite Hit. unfold planOf. rewrite plan_functions, drop_0. apply take_ge.
  destruct (funcsPerFileOf_bounds _ _ HN Hlen) as [[Hc1 _] _].
  destruct (ceil_div_spec (length (extractFunctions node))
              (funcsPerFileOf (length (extractFunctions node)) numFiles)
              ltac:(lia) Hlen) as [_ Hhi]. lia.
Qed.

Lemma run_iteration_imports (w : World) (d : Disk) (inputFile : string)
    (numFiles : nat) (node : File) (st : Run) (out : Outcome) (k : nat) (it : Iter) :
  ParseFile w inputFile = inl node →
  splitGoFile w d inputFile numFiles = (st, out) →
  iters st !! k = Some it →
  it_requiredImports it
  = analyzeRequiredImports (it_functions it) (it_typesForFile it)
      (extractImports node)
  ∧ it_typesForFile it = if bool_decide (k = 0) then extractTypeDecls node else [].
Proof.
  intros Hparse Hrun Hk.
  by destruct (run_iteration_at _ _ _ _ _ _ _ _ _ Hparse Hrun Hk) as (_ & _ & ->).
Qed.

(** X14. On a run that returns no error, the imports written to at
    least one output file are exactly the imports that the import filter
    keeps for the whole input (all functions and all type declarations):
    splitting drops no import that some declaration refers to by name,
    and keeps no other. *)
Theorem imports_of_all_groups (w : World) (d : Disk) (inputFile : string)
    (numFiles : nat) (node : File) (st : Run) (imp : ImportSpec) :
  ParseFile w inputFile = inl node →
  splitGoFile w d inputFile numFiles = (st, Return None) →
  (∃ it, it ∈ iters st ∧ imp ∈ it_requiredImports it)
  ↔ imp ∈ analyzeRequiredImports (extractFunctions node) (extractTypeDecls node)
            (extractImports node).
Proof.
  intros Hparse Hrun. rewrite elem_of_analyzeRequiredImports. split.
  - intros (it & [k Hk]%list_elem_of_lookup & Himp).
    destruct (run_iteration_imports _ _ _ _ _ _ _ _ _ Hparse Hrun Hk) as [Hreq Hty].
    destruct (run_iteration_types _ _ _ _ _ _ _ _ _ Hparse Hrun Hk) as [_ Hsub].
    rewrite Hreq, elem_of_analyzeRequiredImports in Himp.
    destruct Himp as [Hin Hid]. split; [done|].
    apply elem_of_groupIdentifiers in Hid. apply elem_of_groupIdentifiers.
    destruct Hid as [(fn & Hfn & Hx)|(g & Hg & Hx)].
    + left. exists fn. split; [by apply Hsub|done].
    + right. exists g. split; [|done]. rewrite Hty in Hg.
      case_bool_decide; [done|by apply not_elem_of_nil in Hg].
  - intros [Hin Hid]. apply elem_of_groupIdentifiers in Hid.
    destruct Hid as [(fn & Hfn & Hx)|(g & Hg & Hx)].
    + rewrite <-(run_functions_concat _ _ _ _ _ _ Hparse Hrun) in Hfn.
      apply elem_of_concat in Hfn as (fns & Hfns & Hfn).
      apply list_elem_of_fmap in Hfns as (it & -> & Hit).
      exists it. split; [done|].
      apply list_elem_of_lookup in Hit as [k Hk].
      destruct (run_iteration_imports _ _ _ _ _ _ _ _ _ Hparse Hrun Hk) as [-> _].
      apply elem_of_analyzeRequiredImports. split; [done|].
      apply elem_of_groupIdentifiers. left. by exists fn.
    + destruct (splitGoFile_success _ _ _ _ _ _ Hparse Hrun)
        as (HN & Hlen & Hplan & _).
      assert (∃ it, iters st !! 0 = Some it) as [it Hk].
      { apply lookup_lt_is_Some_2. rewrite Hplan. unfold planOf.
        rewrite length_plan.
        destruct (funcsPerFileOf_bounds _ _ HN Hlen) as [[Hc1 _] _].
        destruct (ceil_div_spec (length (extractFunctions node))
                    (funcsPerFileOf (length (extractFunctions node)) numFiles)
                    ltac:(lia) Hlen) as [_ Hhi].
        destruct (ceil_div _ _); lia. }
      exists it. split; [by apply list_elem_of_lookup_2 in Hk|].
      destruct (run_iteration_imports _ _ _ _ _ _ _ _ _ Hparse Hrun Hk) as [-> Hty].
      apply elem_of_analyzeRequiredImports. split; [done|].
      apply elem_of_groupIdentifiers. right. exists g. by rewrite Hty.
Qed.

Lemma imports_of_all_groups_witness :
  (∃ it, it ∈ iters (splitGoFile worldT ∅ "x.go" 2).1
         ∧ fmtImport ∈ it_requiredImports it)
  ↔ fmtImport ∈ analyzeRequiredImports (extractFunctions fileT)
                  (extractTypeDecls fileT) (extractImports fileT).
Proof.
  apply (imports_of_all_groups worldT ∅ "x.go" 2 fileT
           (splitGoFile worldT ∅ "x.go" 2).1 fmtImport);
    [reflexivity|vm_compute; reflexivity].
Defined.

(** ** The bound name of an import *)

Lemma lacks_String (c a : ascii) (s : string) :
  lacks c (String a s) ↔ a ≠ c ∧ lacks c s.
Proof. unfold lacks. simpl. rewrite not_elem_of_cons. naive_solver. Qed.

Lemma lacks_append (c : ascii) (s t : string) :
  lacks c (s +:+ t) ↔ lacks c s ∧ lacks c t.
Proof.
  induction s as [|a s IH].
  - change ("" +:+ t) with t. split; [|tauto]. intros H. split; [|done].
    unfold lacks. simpl. apply not_elem_of_nil.
  - change (String a s +:+ t) with (String a (s +:+ t)).
    rewrite !lacks_String, IH. tauto.
Qed.

Lemma lacks_rev (c : ascii) (s : string) : lacks c s → lacks c (String.rev s).
Proof.
  induction s as [|a s IH]; [done|]. rewrite lacks_String, rev_String.
  intros [Hne Hs]. apply lacks_append. split; [by apply IH|].
  apply lacks_String. split; [done|]. unfold lacks. simpl. apply not_elem_of_nil.
Qed.

Lemma in_cutset_single (c a : ascii) :
  in_cutset (String c "") a = bool_decide (a = c).
Proof.
  unfold in_cutset. simpl. apply bool_decide_ext. rewrite list_elem_of_singleton. done.
Qed.

Lemma TrimLeft_lacks (c : ascii) (s t : string) :
  lacks c s → s ≠ "" → TrimLeft (s +:+ t) (String c "") = s +:+ t.
Proof.
  destruct s as [|a s]; [done|]. rewrite lacks_String. intros [Hne _] _.
  change (String a s +:+ t) with (String a (s +:+ t)). cbn [TrimLeft].
  by rewrite in_cutset_single, bool_decide_false.
Qed.

Lemma TrimLeft_one (c : ascii) (s : string) :
  TrimLeft (String c s) (String c "") = TrimLeft s (String c "").
Proof. cbn [TrimLeft]. by rewrite in_cutset_single, bool_decide_true. Qed.

(** [strings.Trim] removes the quotes around a text without quotes. *)
Lemma Trim_quoted (c : ascii) (s : string) :
  lacks c s → Trim (String c "" +:+ s +:+ String c "") (String c "") = s.
Proof.
  intros Hs. unfold Trim.
  change (String c "" +:+ s +:+ String c "") with (String c (s +:+ String c "")).
  rewrite TrimLeft_one.
  destruct (decide (s = "")) as [->|Hne].
  { change ("" +:+ String c "") with (String c ""). by rewrite TrimLeft_one. }
  rewrite TrimLeft_lacks by done. rewrite rev_append.
  change (String.rev (String c "")) with (String c "").
  change (String c "" +:+ String.rev s) with (String c (String.rev s)).
  rewrite TrimLeft_one.
  rewrite <-(append_nil_r (String.rev s)), TrimLeft_lacks.
  - by rewrite append_nil_r, rev_involutive.
  - by apply lacks_rev.
  - intros Hrev. apply Hne. by rewrite <-(rev_involutive s), Hrev.
Qed.

Lemma Split_go_lacks (sep : ascii) (cur s : string) :
  lacks sep s → Split_go sep cur s = [String.rev cur +:+ s].
Proof.
  revert cur. induction s as [|a s IH]; intros cur Hs.
  - simpl. by rewrite append_nil_r.
  - apply lacks_String in Hs as [Hne Hs]. cbn [Split_go].
    rewrite bool_decide_false by done. rewrite IH by done.
    by rewrite rev_String, append_assoc.
Qed.

Lemma Split_go_nonempty (sep : ascii) (cur s : string) : Split_go sep cur s ≠ [].
Proof.
  revert cur. induction s as [|a s IH]; intros cur; [done|].
  cbn [Split_go]. by case_bool_decide.
Qed.

Lemma last_cons_nonempty {A : Type} (x : A) (l : list A) (dflt : A) :
  l ≠ [] → List.last (x :: l) dflt = List.last l dflt.
Proof. by destruct l. Qed.

(** The last part of [strings.Split] is what follows the last
    separator. *)
Lemma Split_last_segment (sep : ascii) (cur dir seg : string) :
  lacks sep seg →
  List.last (Split_go sep cur (dir +:+ String sep seg)) "" = seg.
Proof.
  intros Hseg. revert cur. induction dir as [|a dir IH]; intros cur.
  - change ("" +:+ String sep seg) with (String sep seg). cbn [Split_go].
    rewrite bool_decide_true by done.
    rewrite last_cons_nonempty by apply Split_go_nonempty.
    by rewrite Split_go_lacks.
  - change (String a dir +:+ String sep seg)
      with (String a (dir +:+ String sep seg)).
    cbn [Split_go]. case_bool_decide.
    + rewrite last_cons_nonempty by apply Split_go_nonempty. apply IH.
    + apply IH.
Qed.

(** X15. The name an import is bound to: its alias when it has one;
    otherwise, for a path written in double quotes, what follows the
    last slash of the path, or the whole path when it has no slash. *)
Theorem importName_alias_or_last_segment (alias path dir seg : string) :
  lacks "034"%char dir → lacks "034"%char seg → lacks "/"%char seg →
  importName {| imp_Name := Some alias; imp_Path := path |} = alias
  ∧ importName {| imp_Name := None;
                  imp_Path := quote +:+ (dir +:+ "/" +:+ seg) +:+ quote |} = seg
  ∧ importName {| imp_Name := None; imp_Path := quote +:+ seg +:+ quote |} = seg.
Proof.
  intros Hdir Hq Hs. split_and!; [done| |].
  - unfold importName, quote. cbn [imp_Name imp_Path].
    rewrite Trim_quoted.
    + apply (Split_last_segment "/"%char "" dir seg Hs).
    + apply lacks_append. split; [done|]. apply lacks_String. split; [done|exact Hq].
  - unfold importName, quote. cbn [imp_Name imp_Path].
    rewrite Trim_quoted by done. unfold Split. by rewrite Split_go_lacks.
Qed.

Lemma importName_alias_or_last_segment_witness :
  importName astImport = "ast".
Proof.
  apply (importName_alias_or_last_segment "a" "p" "go" "ast");
    unfold lacks; apply (bool_decide_eq_true_1 _); vm_compute; reflexivity.
Defined.

(** ** Imports kept by bound name *)











(** * The earlier variant *)

Global Arguments Legacy.iterAt : simpl never.

Section LegacyLoop.
Context (w : World).
Context (packageName : string) (imports : list ImportSpec)
        (typeDecls : list GenDecl) (functions : list FuncDecl)
        (baseFileName outputDir : string) (funcsPerFile : nat).

Local Abbreviation iterAt_ :=
  (Legacy.iterAt w imports typeDecls functions baseFileName outputDir funcsPerFile).
Local Abbreviation loop :=
  (Legacy.splitLoop w packageName imports typeDecls functions baseFileName
     outputDir funcsPerFile).
Local Abbreviation writeErr_ := (writeErr w packageName).
Local Abbreviation writeDisk_ := (writeDisk w packageName).

Lemma legacy_splitLoop_S (n i : nat) (st : Run) :
  loop (S n) i st =
    if bool_decide (length functions ≤ i * funcsPerFile) then (st, None)
    else
      let it := iterAt_ i in
      match writeErr_ it with
      | Some err =>
          ({| usedNames := usedNames st;
              disk := writeDisk_ (disk st) it; stdout := stdout st;
              iters := iters st ++ [it] |},
           Some ("failed to write " +:+ it_outputFile it +:+ ": " +:+ err))
      | None =>
          loop n (S i)
            {| usedNames := usedNames st;
               disk := writeDisk_ (disk st) it;
               stdout := stdout st ++ [created it];
               iters := iters st ++ [it] |}
      end.
Proof.
  cbn [Legacy.splitLoop]. case_bool_decide; [done|].
  pose proof (writeGoFile_iter w packageName (disk st) (iterAt_ i)) as Hw.
  unfold Legacy.iterAt in Hw |- *. cbn [it_start it_end it_functions it_typesForFile
    it_suffix it_outputFile it_requiredImports] in Hw |- *.
  rewrite Hw. by destruct (writeErr _ _ _).
Qed.

(** What a call of the earlier loop does: it appends the iterations
    [i], [i+1], ... and writes their files one after the other. *)
Lemma legacy_splitLoop_spec (n i : nat) (st st' : Run) (err : option string) :
  loop n i st = (st', err) →
  ∃ m, m ≤ n ∧
    iters st' = iters st ++ (iterAt_ <$> seq i m) ∧
    usedNames st' = usedNames st ∧
    (∀ j, j < m → (i + j) * funcsPerFile < length functions) ∧
    disk st' = foldl writeDisk_ (disk st) (iterAt_ <$> seq i m) ∧
    match err with
    | None =>
        Forall (λ it, writeErr_ it = None) (iterAt_ <$> seq i m) ∧
        (m = n ∨ length functions ≤ (i + m) * funcsPerFile)
    | Some e => 0 < m
    end.
Proof.
  revert i st. induction n as [|n IH]; intros i st Hrun.
  - cbn [Legacy.splitLoop] in Hrun. injection Hrun as <- <-. exists 0.
    cbn [seq fmap list_fmap foldl]. rewrite app_nil_r.
    split_and!; [lia|done|done|lia|done|constructor|by left].
  - rewrite legacy_splitLoop_S in Hrun. case_bool_decide as Hbrk.
    { injection Hrun as <- <-. exists 0.
      cbn [seq fmap list_fmap foldl]. rewrite app_nil_r, Nat.add_0_r.
      split_and!; [lia|done|done|lia|done|constructor|by right]. }
    cbv zeta in Hrun.
    destruct (writeErr_ (iterAt_ i)) as [e0|] eqn:Hw.
    + injection Hrun as <- <-. exists 1.
      cbn [seq fmap list_fmap foldl usedNames iters disk stdout].
      split_and!; [lia|done|done| |done|lia].
      intros j Hj. replace (i + j) with i by lia. lia.
    + apply IH in Hrun as (m & Hm & Hit & Hused & Hlt & Hd & Herr).
      cbn [usedNames iters disk stdout] in Hit, Hused, Hd.
      exists (S m). cbn [seq fmap list_fmap foldl].
      split; [lia|]. split; [by rewrite Hit, <-app_assoc|].
      split; [done|]. split.
      { intros [|j] Hj; [rewrite Nat.add_0_r; lia|].
        replace (i + S j) with (S i + j) by lia. apply Hlt. lia. }
      split; [done|].
      destruct err as [e|]; [lia|].
      destruct Herr as (Hok & Hend). split; [by constructor|].
      destruct Hend as [->|Hend]; [by left|right].
      by replace (i + S m) with (S i + m) by lia.
Qed.

Lemma legacy_iterAt_functions (i : nat) :
  it_functions (iterAt_ i) = take funcsPerFile (drop (i * funcsPerFile) functions).
Proof.
  unfold Legacy.iterAt, slice; cbn [it_functions]. case_bool_decide as Hlen.
  - rewrite !take_ge; [done|rewrite length_drop; lia..].
  - replace (i * funcsPerFile + funcsPerFile - i * funcsPerFile)
      with funcsPerFile by lia. done.
Qed.

Lemma legacy_functions_concat (m i : nat) :
  concat (it_functions <$> (iterAt_ <$> seq i m))
  = take (m * funcsPerFile) (drop (i * funcsPerFile) functions).
Proof.
  revert i. induction m as [|m IH]; intros i; [done|].
  cbn [seq fmap list_fmap concat]. rewrite IH, legacy_iterAt_functions.
  replace (S i * funcsPerFile) with (i * funcsPerFile + funcsPerFile) by lia.
  by rewrite <-drop_drop, take_take_drop.
Qed.
End LegacyLoop.

Global Arguments Legacy.splitLoop : simpl never.

(** A run of the earlier variant is the loop on the values it
    computes, unless it stops before. *)
Lemma legacy_splitGoFile_iters (w : World) (d : Disk) (inputFile : string)
    (numFiles : nat) (node : File) (st : Run) (out : Outcome) :
  ParseFile w inputFile = inl node →
  Legacy.splitGoFile w d inputFile numFiles = (st, out) →
  ∃ m, m ≤ numFiles
    ∧ iters st
      = Legacy.iterAt w (extractImports node) (extractTypeDecls node)
          (extractFunctions node) (baseFileNameOf w inputFile)
          (filepath_Dir w inputFile)
          (funcsPerFileOf (length (extractFunctions node)) numFiles) <$> seq 0 m
    ∧ disk st = foldl (writeDisk w (file_Name node)) d (iters st)
    ∧ (out = Return None →
       0 < numFiles ∧ 0 < length (extractFunctions node)
       ∧ Forall (λ it, writeErr w (file_Name node) it = None) (iters st)
       ∧ (m = numFiles
          ∨ length (extractFunctions node)
            ≤ m * funcsPerFileOf (length (extractFunctions node)) numFiles)).
Proof.
  intros Hparse. unfold Legacy.splitGoFile, baseFileNameOf. rewrite Hparse.
  case_bool_decide as Hlen.
  { intros [= <- <-]. exists 0. split_and!; [lia|done|done|done]. }
  case_bool_decide as HN.
  { intros [= <- <-]. exists 0. split_and!; [lia|done|done|done]. }
  destruct (Legacy.splitLoop _ _ _ _ _ _ _ _ _ _ _) as [st1 err] eqn:Hloop.
  intros [= <- <-].
  apply legacy_splitLoop_spec in Hloop as (m & Hm & Hit & _ & _ & Hd & Herr).
  cbn [initRun iters usedNames app disk stdout] in Hit, Hd.
  exists m. split_and!; [done|done|by rewrite Hit|].
  intros [= ->]. destruct Herr as [Hok Hend]. rewrite Hit.
  split_and!; [lia|lia|done|done].
Qed.

(** X16. The earlier variant partitions like the present one: on a
    run that returns no error the groups, one after the other, are the
    functions of the input.  But every file gets the whole import list of
    the input, used or not, and the suffix of a group is
    [generateFilenameSuffix] of the group alone, whatever is in the
    directory and whatever earlier groups were called. *)
Theorem legacy_groups_imports_suffixes (w : World) (d : Disk) (inputFile : string)
    (numFiles : nat) (node : File) (st : Run) :
  ParseFile w inputFile = inl node →
  Legacy.splitGoFile w d inputFile numFiles = (st, Return None) →
  concat (it_functions <$> iters st) = extractFunctions node
  ∧ (∀ k it, iters st !! k = Some it →
       it_requiredImports it = extractImports node
       ∧ it_suffix it
         = generateFilenameSuffix w (it_functions it) (bool_decide (k = 0))
       ∧ it_outputFile it
         = filepath_Join w (filepath_Dir w inputFile)
             (Sprintf_go (baseFileNameOf w inputFile) (it_suffix it))).
Proof.
  intros Hparse Hrun.
  destruct (legacy_splitGoFile_iters _ _ _ _ _ _ _ Hparse Hrun)
    as (m & Hm & Hit & _ & Hok).
  destruct (Hok eq_refl) as (HN & Hlen & _ & Hend). split.
  - rewrite Hit, legacy_functions_concat, drop_0. apply take_ge.
    destruct (funcsPerFileOf_bounds _ _ HN Hlen) as [_ Hc3].
    destruct Hend as [->|Hend]; lia.
  - intros k it Hk. rewrite Hit in Hk.
    apply list_lookup_fmap_Some in Hk as (i & -> & Hi).
    apply lookup_seq in Hi as [-> _]. done.
Qed.

Lemma legacy_groups_imports_suffixes_witness :
  it_suffix <$> iters (Legacy.splitGoFile worldParse ∅ "x.go" 3).1
  = ["types"; "parse"; "parse"]
  ∧ concat (it_functions <$> iters (Legacy.splitGoFile worldParse ∅ "x.go" 3).1)
    = extractFunctions fileParse.
Proof.
  split; [vm_compute; reflexivity|].
  apply (legacy_groups_imports_suffixes worldParse ∅ "x.go" 3 fileParse
           (Legacy.splitGoFile worldParse ∅ "x.go" 3).1);
    [reflexivity|vm_compute; reflexivity].
Defined.

(** X17. In the earlier variant two groups with the same suffix are
    written to the same path, and after a run that returns no error that
    path holds only what the printer wrote for the later group: the file
    of the earlier group is overwritten. *)
Theorem legacy_same_suffix_overwrites (w : World) (d : Disk) (inputFile : string)
    (numFiles : nat) (node : File) (st : Run) (j k : nat) (itj itk : Iter) :
  ParseFile w inputFile = inl node →
  Legacy.splitGoFile w d inputFile numFiles = (st, Return None) →
  iters st !! j = Some itj → iters st !! k = Some itk → j < k →
  it_suffix itj = it_suffix itk →
  (∀ k' it', k < k' → iters st !! k' = Some it' →
     it_outputFile it' ≠ it_outputFile itk) →
  it_outputFile itj = it_outputFile itk
  ∧ disk st !! it_outputFile itj
    = Some (format_Node w (it_file (file_Name node) itk)).1.
Proof.
  intros Hparse Hrun Hj Hk Hjk Hsuf Hlater.
  destruct (legacy_splitGoFile_iters _ _ _ _ _ _ _ Hparse Hrun)
    as (m & Hm & Hit & Hd & Hok).
  destruct (Hok eq_refl) as (_ & _ & Hall & _).
  assert (it_outputFile itj = it_outputFile itk) as Hpath.
  { pose proof Hj as Hj'. pose proof Hk as Hk'. rewrite Hit in Hj', Hk'.
    apply list_lookup_fmap_Some in Hj' as (a & Ha & _).
    apply list_lookup_fmap_Some in Hk' as (b & Hb & _).
    rewrite Ha in Hsuf |- *. rewrite Hb in Hsuf |- *.
    unfold Legacy.iterAt in Hsuf |- *. cbn [it_suffix it_outputFile] in Hsuf |- *.
    by rewrite Hsuf. }
  split; [done|]. rewrite Hpath, Hd.
  apply (foldl_writeDisk_last_writer _ _ _ _ k); [done| |done].
  rewrite Forall_lookup in Hall. by apply (Hall k).
Qed.

Lemma legacy_same_suffix_overwrites_witness :
  size (dom (disk (Legacy.splitGoFile worldParse ∅ "x.go" 3).1)) = 2
  ∧ it_outputFile (Legacy.iterAt worldParse [] [] (extractFunctions fileParse)
                     "x" "." 1 1)
    = it_outputFile (Legacy.iterAt worldParse [] [] (extractFunctions fileParse)
                       "x" "." 1 2).
Proof.
  split; [vm_compute; reflexivity|].
  apply (legacy_same_suffix_overwrites worldParse ∅ "x.go" 3 fileParse
           (Legacy.splitGoFile worldParse ∅ "x.go" 3).1 1 2);
    [reflexivity|vm_compute; reflexivity|vm_compute; reflexivity
    |vm_compute; reflexivity|lia|vm_compute; reflexivity|].
  intros k' it' Hk' Hit'. apply lookup_lt_Some in Hit'.
  vm_compute in Hit'. lia.
Defined.

